(** * The clamp function of the blog post
      "Using the Clamp Function for Definite Boundaries in JavaScript"

    The post publishes two TypeScript bodies for
    [clamp(value: number, min: number, max: number): number]:
    one built from [Math.min] and [Math.max], one made of two sequential
    bound checks.  It also lists guard snippets that throw on malformed
    input; those snippets are shown next to the function, not inside it.

    A TypeScript [number] is an IEEE 754 binary64 value, so the model
    keeps NaN, the two infinities and the two zeros.  Only comparisons,
    [Math.min] and [Math.max] are applied to the numbers: no rounding
    takes place anywhere in the two bodies. *)

From Stdlib Require Import ZArith List String Bool Lia.
From Stdlib Require Import SpecFloat.
Import ListNotations.

Local Open Scope Z_scope.
Local Open Scope string_scope.

(** ** Numbers *)

(** A [number] is a [spec_float]; the binary64 values are those accepted
    by [is_double] (53 bits of precision, infinities at exponent 1024).
    The results below are proved for every [spec_float], hence for every
    binary64 value, and [clamp] maps binary64 arguments to a binary64
    result (lemma [clamp_is_double]). *)
Definition number : Type := spec_float.

Definition is_double (x : number) : bool := valid_binary 53 1024 x.

Definition NaN : number := S754_nan.
Definition Infinity : number := S754_infinity false.
Definition pos_zero : number := S754_zero false.
Definition neg_zero : number := S754_zero true.

(** An integer literal such as [50]; unary minus is [neg]. *)
Definition of_Z (z : Z) : number := binary_normalize 53 1024 z 0 false.
Definition neg (x : number) : number := SFopp x.

Definition isNaN (x : number) : bool :=
  match x with S754_nan => true | _ => false end.

Definition isFinite (x : number) : bool :=
  match x with S754_nan | S754_infinity _ => false | _ => true end.

Definition is_pos_zero (x : number) : bool :=
  match x with S754_zero false => true | _ => false end.

Definition is_neg_zero (x : number) : bool :=
  match x with S754_zero true => true | _ => false end.

(** The relational operators [<], [>], [<=] and [===] on numbers.
    Every comparison with NaN is false; the two zeros compare equal. *)
Definition js_lt (x y : number) : bool := SFltb x y.
Definition js_gt (x y : number) : bool := SFltb y x.
Definition js_le (x y : number) : bool := SFleb x y.
Definition strict_eq (x y : number) : bool := SFeqb x y.

(** Being the same number: [===] made reflexive at NaN (ECMAScript's
    SameValueZero).  It identifies [+0] and [-0], which denote the same
    real number, and is the equality the statements about results use
    whenever the result need not be the very same bit pattern. *)
Definition same_number (x y : number) : bool :=
  match x, y with
  | S754_nan, S754_nan => true
  | _, _ => strict_eq x y
  end.

Declare Scope js_scope.
Delimit Scope js_scope with js.
Infix "<" := js_lt : js_scope.
Infix ">" := js_gt : js_scope.
Infix "<=" := js_le : js_scope.
Infix "==" := same_number (at level 70, no associativity) : js_scope.

(** [r] lies in the closed interval from [lo] to [hi]. *)
Definition in_range (r lo hi : number) : bool :=
  (lo <= r)%js && (r <= hi)%js.

(** ** [Math.max] and [Math.min]

    Both are variadic.  ECMA-262 runs through the arguments with an
    accumulator that starts at [-Infinity] (for [max]) or [+Infinity]
    (for [min]); a NaN argument makes the result NaN, and [+0] counts as
    larger than [-0]. *)
Module Math.

Fixpoint max_from (highest : number) (coerced : list number) : number :=
  match coerced with
  | [] => highest
  | number :: rest =>
      if isNaN number then NaN
      else
        let highest :=
          if is_pos_zero number && is_neg_zero highest
          then pos_zero else highest in
        let highest := if (number > highest)%js then number else highest in
        max_from highest rest
  end.

Definition max (args : list number) : number :=
  max_from (neg Infinity) args.

Fixpoint min_from (lowest : number) (coerced : list number) : number :=
  match coerced with
  | [] => lowest
  | number :: rest =>
      if isNaN number then NaN
      else
        let lowest :=
          if is_neg_zero number && is_pos_zero lowest
          then neg_zero else lowest in
        let lowest := if (number < lowest)%js then number else lowest in
        min_from lowest rest
  end.

Definition min (args : list number) : number :=
  min_from Infinity args.

End Math.

(** ** Statements and calls

    A function body is a statement run against the ambient state [St] of
    the program (whatever it is).  A statement completes normally, returns
    a value or throws; a call turns that completion into an outcome. *)
Inductive completion : Type :=
| Normal
| Return (v : number)
| Throw (msg : string).

Inductive outcome : Type :=
| Value (v : number)
| Undefined
| Exception (msg : string).

Definition stmt (St : Type) : Type := St -> completion * St.

Definition skip {St} : stmt St := fun s => (Normal, s).
Definition return_ {St} (v : number) : stmt St := fun s => (Return v, s).
Definition throw {St} (msg : string) : stmt St := fun s => (Throw msg, s).

Definition seq {St} (s1 s2 : stmt St) : stmt St :=
  fun s =>
    match s1 s with
    | (Normal, s') => s2 s'
    | abrupt => abrupt
    end.

Definition if_ {St} (cond : bool) (body : stmt St) : stmt St :=
  if cond then body else skip.

Notation "s1 ;; s2" := (seq s1 s2) (at level 61, right associativity).

(** Calling a function whose body is [body]: falling off the end yields
    [undefined], a [throw] surfaces as an exception. *)
Definition call {St} (body : stmt St) (s : St) : outcome * St :=
  match body s with
  | (Return v, s') => (Value v, s')
  | (Normal, s') => (Undefined, s')
  | (Throw msg, s') => (Exception msg, s')
  end.

(** ** The two published bodies of [clamp] *)

(** [return Math.min(Math.max(value, min), max);] *)
Module MinMax.
Definition clamp {St} (value min max : number) : St -> outcome * St :=
  call (return_ (Math.min [Math.max [value; min]; max])).
End MinMax.

(** [if (value < min) { return min; }
     if (value > max) { return max; }
     return value;] *)
Module Sequential.
Definition clamp {St} (value min max : number) : St -> outcome * St :=
  call (if_ (value < min)%js (return_ min) ;;
        if_ (value > max)%js (return_ max) ;;
        return_ value).
End Sequential.

(** ** The guard snippets of the "Edge Cases" section

    Each is a statement the post suggests adding; none occurs in the two
    bodies above. *)
Definition guard_bounds {St} (min max : number) : stmt St :=
  if_ (min > max)%js
      (throw "Lower limit cannot be greater than upper limit").

Definition guard_nan {St} (value min max : number) : stmt St :=
  if_ (isNaN value || isNaN min || isNaN max)
      (throw "All inputs must be numbers").

Definition guard_infinite {St} (value min max : number) : stmt St :=
  if_ (negb (isFinite value) || negb (isFinite min) || negb (isFinite max))
      (throw "Inputs cannot be infinite").

(** ** What a call yields *)

(** The call returns normally with the number [x] itself and leaves the
    state as it found it. *)
Definition returns {St} (run : St -> outcome * St) (s : St) (x : number)
  : Prop :=
  run s = (Value x, s).

(** The call returns normally with a number that is the same number as
    [x], and leaves the state as it found it. *)
Definition yields {St} (run : St -> outcome * St) (s : St) (x : number)
  : Prop :=
  exists r, run s = (Value r, s) /\ (r == x)%js = true.

(** The call returns normally with a number of the closed interval from
    [lo] to [hi], and leaves the state as it found it. *)
Definition lands_in {St} (run : St -> outcome * St) (s : St)
  (lo hi : number) : Prop :=
  exists r, run s = (Value r, s) /\ in_range r lo hi = true.

(** Two calls, each against its own state, both return normally with the
    same number, and both leave their state as they found it. *)
Definition agree {St1 St2}
  (run1 : St1 -> outcome * St1) (s1 : St1)
  (run2 : St2 -> outcome * St2) (s2 : St2) : Prop :=
  exists r1 r2,
    run1 s1 = (Value r1, s1) /\ run2 s2 = (Value r2, s2) /\
    (r1 == r2)%js = true.

(** [clamp(clamp(value, min, max), min, max)] gives back what
    [clamp(value, min, max)] gave. *)
Definition idempotent_at {St}
  (clamp : number -> number -> number -> St -> outcome * St)
  (s : St) (value min max : number) : Prop :=
  exists r, clamp value min max s = (Value r, s) /\
            clamp r min max s = (Value r, s).

(** ** The bodies with the guard snippets in front

    The post offers the three guard snippets as additions to [clamp]; here
    they are put in front of a body in the order the post lists them. *)
Definition minmax_body {St} (value min max : number) : stmt St :=
  return_ (Math.min [Math.max [value; min]; max]).

Definition sequential_body {St} (value min max : number) : stmt St :=
  if_ (value < min)%js (return_ min) ;;
  if_ (value > max)%js (return_ max) ;;
  return_ value.

Definition guarded {St} (body : number -> number -> number -> stmt St)
  (value min max : number) : St -> outcome * St :=
  call (guard_bounds min max ;;
        guard_nan value min max ;;
        guard_infinite value min max ;;
        body value min max).

(** The inputs one of the three guards rejects. *)
Definition malformed (value min max : number) : bool :=
  (min > max)%js
  || (isNaN value || isNaN min || isNaN max)
  || (negb (isFinite value) || negb (isFinite min) || negb (isFinite max)).

(** ** Arithmetic on numbers *)

(** [x + y] and [x - y], rounded to nearest, ties to even. *)
Definition js_add (x y : number) : number := SFadd 53 1024 x y.
Definition js_sub (x y : number) : number := SFsub 53 1024 x y.

(** The binary64 shape of the non-zero integer of sign [s] and absolute
    value [m]: a 53-bit mantissa and the matching exponent. *)
Definition canon (s : bool) (m : positive) : number :=
  S754_finite s (Pos.shiftl m (Z.to_N (53 - Zpos (digits2_pos m))))
              (Zpos (digits2_pos m) - 53).

Definition signed (s : bool) (m : positive) : Z := cond_Zopp s (Zpos m).

(** ** [descendStairs]

    The function logs a line per step and calls itself on
    [stepsLeft - 1] until [stepsLeft === 0].  Its arguments are taken to
    be numbers.  [toString] stands for the conversion of a number to a
    string that the template literal applies; [stack] is the number of
    call frames still available, and a call that finds none left throws
    the engine's [RangeError]. *)
Definition console : Type := list string.

Definition console_log (line : string) (out : console) : console :=
  (out ++ [line])%list.

Definition stepping_line (toString : number -> string) (stepsLeft : number)
  : string :=
  "Stepping down... " ++ toString stepsLeft ++ " steps left to go!".

Definition stack_overflow : string := "RangeError".

Fixpoint descendStairs (toString : number -> string) (stack : nat)
  (stepsLeft : number) (out : console) : outcome * console :=
  match stack with
  | O => (Exception stack_overflow, out)
  | S stack' =>
      if strict_eq stepsLeft (of_Z 0)
      then (Undefined, console_log "You have reached the bottom!" out)
      else
        match descendStairs toString stack' (js_sub stepsLeft (of_Z 1))
                (console_log (stepping_line toString stepsLeft) out) with
        | (Exception msg, out') => (Exception msg, out')
        | (_, out') => (Undefined, out')
        end
  end.

(** The lines of [count] steps down that start at the integer [from]. *)
Fixpoint countdown (toString : number -> string) (from : Z) (count : nat)
  : list string :=
  match count with
  | O => []
  | S count' =>
      stepping_line toString (of_Z from)
      :: countdown toString (from - 1) count'
  end.

(** ** The [Counter] class

    [constructor(initialValue = 0)], [increment], [decrement] and
    [getValue], for a numeric initial value; an omitted argument is
    [None]. *)
Module Counter.
Record t : Type := { value : number }.

Definition constructor (initialValue : option number) : t :=
  {| value := match initialValue with
              | Some v => v
              | None => of_Z 0
              end |}.

Definition increment (this : t) : t :=
  {| value := js_add (value this) (of_Z 1) |}.

Definition decrement (this : t) : t :=
  {| value := js_sub (value this) (of_Z 1) |}.

Definition getValue (this : t) : number := value this.
End Counter.

(** ** [counter.js] with a module-level counter

    The module holds one [counter]; its four functions read and write it
    and log to the console. *)
Module CounterModule.
Record state : Type := { counter : number; out : console }.

(** The module as loaded: [let counter = 0]. *)
Definition loaded (out : console) : state :=
  {| counter := of_Z 0; out := out |}.

Definition increment (toString : number -> string) (s : state) : state :=
  let counter := js_add (counter s) (of_Z 1) in
  {| counter := counter;
     out := console_log ("Counter is now: " ++ toString counter) (out s) |}.

Definition decrement (toString : number -> string) (s : state) : state :=
  let counter := js_sub (counter s) (of_Z 1) in
  {| counter := counter;
     out := console_log ("Counter is now: " ++ toString counter) (out s) |}.

Definition reset (s : state) : state :=
  {| counter := of_Z 0;
     out := console_log "Counter has been reset" (out s) |}.

Definition getCounter (s : state) : number := counter s.
End CounterModule.

(** The lines [increment] logs while counting from [from + 1] up to
    [from + count]. *)
Fixpoint countup (toString : number -> string) (from : Z) (count : nat)
  : list string :=
  match count with
  | O => []
  | S count' =>
      ("Counter is now: " ++ toString (of_Z (from + 1)))
      :: countup toString (from + 1) count'
  end.

(** ** Stores of objects

    Objects that are created at run time and mutated in place live in a
    store; a reference is a position in it. *)
Fixpoint store {A} (ref : nat) (obj : A) (objs : list A) : list A :=
  match objs, ref with
  | [], _ => []
  | _ :: rest, O => obj :: rest
  | first :: rest, S ref' => first :: store ref' obj rest
  end.

(** ** [counter.js] with [createCounter]

    Each call of [createCounter] makes a fresh [counter] variable, which
    the four methods of the returned object close over.  The variables
    live in the store [counters]; the returned object is the reference
    to its own variable. *)
Module CounterFactory.
Record world : Type := { counters : list number; out : console }.

Definition createCounter (w : world) : nat * world :=
  (List.length (counters w),
   {| counters := (counters w ++ [of_Z 0])%list; out := out w |}).

Definition increment (toString : number -> string) (this : nat) (w : world)
  : option world :=
  match nth_error (counters w) this with
  | None => None
  | Some counter =>
      let counter := js_add counter (of_Z 1) in
      Some {| counters := store this counter (counters w);
              out := console_log ("Counter is now: " ++ toString counter)
                                 (out w) |}
  end.

Definition decrement (toString : number -> string) (this : nat) (w : world)
  : option world :=
  match nth_error (counters w) this with
  | None => None
  | Some counter =>
      let counter := js_sub counter (of_Z 1) in
      Some {| counters := store this counter (counters w);
              out := console_log ("Counter is now: " ++ toString counter)
                                 (out w) |}
  end.

Definition reset (this : nat) (w : world) : option world :=
  match nth_error (counters w) this with
  | None => None
  | Some _ =>
      Some {| counters := store this (of_Z 0) (counters w);
              out := console_log "Counter has been reset." (out w) |}
  end.

Definition getCounter (this : nat) (w : world) : option number :=
  nth_error (counters w) this.
End CounterFactory.

(** ** [userProfile.js]

    The module variable [userProfile] refers to an object with the fields
    [name] and [email].  [setProfile] writes the two fields of that
    object, [getProfile] returns a fresh copy of it, and [clearProfile]
    makes the variable refer to a fresh object. *)
Module UserProfile.
Record profile : Type := { name : string; email : string }.

Record world : Type := { objects : list profile; userProfile : nat }.

(** The module as loaded, among the objects that exist already. *)
Definition loaded (objects : list profile) : world :=
  {| objects := (objects ++ [{| name := ""; email := "" |}])%list;
     userProfile := List.length objects |}.

Definition setProfile (name email : string) (w : world) : option world :=
  match nth_error (objects w) (userProfile w) with
  | None => None
  | Some _ =>
      Some {| objects := store (userProfile w)
                               {| name := name; email := email |}
                               (objects w);
              userProfile := userProfile w |}
  end.

Definition getProfile (w : world) : option (nat * world) :=
  match nth_error (objects w) (userProfile w) with
  | None => None
  | Some current =>
      Some (List.length (objects w),
            {| objects := (objects w ++ [current])%list;
               userProfile := userProfile w |})
  end.

Definition clearProfile (w : world) : world :=
  {| objects := (objects w ++ [{| name := ""; email := "" |}])%list;
     userProfile := List.length (objects w) |}.

(** The module variable refers to an object of the store. *)
Definition well_formed (w : world) : Prop :=
  (userProfile w < List.length (objects w))%nat.
End UserProfile.

(** ** [miscUtils.js] *)

(** [x * y], rounded to nearest, ties to even. *)
Definition js_mul (x y : number) : number := SFmul 53 1024 x y.

(** [n % d] (ECMA-262, Number::remainder): the remainder of the division
    truncated towards zero.  It has the sign of the dividend and is
    exact, so nothing is rounded. *)
Definition js_rem (n d : number) : number :=
  match n, d with
  | S754_nan, _ | _, S754_nan => NaN
  | S754_infinity _, _ => NaN
  | _, S754_infinity _ => n
  | _, S754_zero _ => NaN
  | S754_zero _, _ => n
  | S754_finite sn mn en, S754_finite _ md ed =>
      let e := Z.min en ed in
      let dividend := Zpos (fst (shl_align mn en e)) in
      let divisor := Zpos (fst (shl_align md ed e)) in
      binary_normalize 53 1024 (cond_Zopp sn (dividend mod divisor)) e sn
  end.

Definition calculateRectangleArea (width height : number) : number :=
  js_mul width height.

Definition isEven (number : number) : bool :=
  strict_eq (js_rem number (of_Z 2)) (of_Z 0).

(** ** The two bodies as syntax, run in a realm

    What a body reads and writes outside its own call shows in its text:
    an identifier that is not a parameter is a global, and [Math.max] and
    [Math.min] are looked up in the global object [Math] when the call
    is made.  Here the two bodies are written out as syntax and run in a
    realm that holds the two [Math] members, which a program may have
    replaced, and the global variables.  A function held by a [Math]
    member takes numbers, may read and write the global variables, and
    returns a number or throws. *)
Module Js.

Definition store : Type := list (string * number).

Inductive result (A : Type) : Type :=
| Ok (a : A)
| Err (msg : string).
Arguments Ok {A} a.
Arguments Err {A} msg.

Definition fn : Type := list number -> store -> result number * store.

Record realm : Type :=
  { math_max : fn; math_min : fn; vars : store }.

(** The built-in [Math.max] and [Math.min]. *)
Definition std_max : fn := fun args s => (Ok (Math.max args), s).
Definition std_min : fn := fun args s => (Ok (Math.min args), s).

Definition standard (r : realm) : Prop :=
  math_max r = std_max /\ math_min r = std_min.

Inductive builtin : Type := Math_max | Math_min.

Definition binding (f : builtin) (r : realm) : fn :=
  match f with
  | Math_max => math_max r
  | Math_min => math_min r
  end.

Definition std (f : builtin) : fn :=
  match f with
  | Math_max => std_max
  | Math_min => std_min
  end.

Fixpoint lookup (x : string) (s : store) : option number :=
  match s with
  | [] => None
  | (y, v) :: rest => if String.eqb x y then Some v else lookup x rest
  end.

Fixpoint assign (x : string) (v : number) (s : store) : store :=
  match s with
  | [] => [(x, v)]
  | (y, w) :: rest =>
      if String.eqb x y then (y, v) :: rest else (y, w) :: assign x v rest
  end.

(** Expressions: an identifier, or a call [Math.f(a, b)]. *)
Inductive expr : Type :=
| Var (x : string)
| MathCall (f : builtin) (a b : expr).

(** Tests: [a < b] and [a > b]. *)
Inductive cond : Type :=
| Lt (a b : expr)
| Gt (a b : expr).

(** Statements: [return e;], [if (c) { body }], a sequence, an
    assignment to a global, and [throw new Error(msg);]. *)
Inductive stmt : Type :=
| SReturn (e : expr)
| SIf (c : cond) (body : stmt)
| SSeq (s1 s2 : stmt)
| SAssign (x : string) (e : expr)
| SThrow (msg : string).

(** An identifier is a parameter if the call binds it, a global variable
    otherwise; an unknown one is a [ReferenceError]. *)
Fixpoint eval (params : store) (e : expr) (r : realm)
  : result number * realm :=
  match e with
  | Var x =>
      match lookup x params with
      | Some v => (Ok v, r)
      | None =>
          match lookup x (vars r) with
          | Some v => (Ok v, r)
          | None => (Err "ReferenceError", r)
          end
      end
  | MathCall f a b =>
      let callee := binding f r in
      match eval params a r with
      | (Err msg, r1) => (Err msg, r1)
      | (Ok va, r1) =>
          match eval params b r1 with
          | (Err msg, r2) => (Err msg, r2)
          | (Ok vb, r2) =>
              let (res, s) := callee [va; vb] (vars r2) in
              (res, {| math_max := math_max r2;
                       math_min := math_min r2;
                       vars := s |})
          end
      end
  end.

Definition test (params : store) (c : cond) (r : realm)
  : result bool * realm :=
  match c with
  | Lt a b =>
      match eval params a r with
      | (Err msg, r1) => (Err msg, r1)
      | (Ok va, r1) =>
          match eval params b r1 with
          | (Err msg, r2) => (Err msg, r2)
          | (Ok vb, r2) => (Ok (va < vb)%js, r2)
          end
      end
  | Gt a b =>
      match eval params a r with
      | (Err msg, r1) => (Err msg, r1)
      | (Ok va, r1) =>
          match eval params b r1 with
          | (Err msg, r2) => (Err msg, r2)
          | (Ok vb, r2) => (Ok (va > vb)%js, r2)
          end
      end
  end.

Fixpoint exec (params : store) (s : stmt) (r : realm) : completion * realm :=
  match s with
  | SReturn e =>
      match eval params e r with
      | (Ok v, r1) => (Return v, r1)
      | (Err msg, r1) => (Throw msg, r1)
      end
  | SIf c body =>
      match test params c r with
      | (Ok true, r1) => exec params body r1
      | (Ok false, r1) => (Normal, r1)
      | (Err msg, r1) => (Throw msg, r1)
      end
  | SSeq s1 s2 =>
      match exec params s1 r with
      | (Normal, r1) => exec params s2 r1
      | abrupt => abrupt
      end
  | SAssign x e =>
      match eval params e r with
      | (Ok v, r1) =>
          (Normal, {| math_max := math_max r1;
                      math_min := math_min r1;
                      vars := assign x v (vars r1) |})
      | (Err msg, r1) => (Throw msg, r1)
      end
  | SThrow msg => (Throw msg, r)
  end.

(** A call [clamp(value, min, max)] of a function with the body [body]. *)
Definition run (body : stmt) (value min max : number)
  : realm -> outcome * realm :=
  call (exec [("value", value); ("min", min); ("max", max)] body).

(** [return Math.min(Math.max(value, min), max);] *)
Definition minmax_clamp : stmt :=
  SReturn (MathCall Math_min
             (MathCall Math_max (Var "value") (Var "min"))
             (Var "max")).

(** [if (value < min) { return min; }
     if (value > max) { return max; }
     return value;] *)
Definition sequential_clamp : stmt :=
  SSeq (SIf (Lt (Var "value") (Var "min")) (SReturn (Var "min")))
       (SSeq (SIf (Gt (Var "value") (Var "max")) (SReturn (Var "max")))
             (SReturn (Var "value"))).

(** What the text of a body shows: [closed] says that every identifier is
    a parameter and nothing is assigned, [calls f] that [Math.f] is
    called somewhere. *)
Fixpoint closed_expr (params : list string) (e : expr) : bool :=
  match e with
  | Var x => existsb (String.eqb x) params
  | MathCall _ a b => closed_expr params a && closed_expr params b
  end.

Definition closed_cond (params : list string) (c : cond) : bool :=
  match c with
  | Lt a b | Gt a b => closed_expr params a && closed_expr params b
  end.

Fixpoint closed (params : list string) (s : stmt) : bool :=
  match s with
  | SReturn e => closed_expr params e
  | SIf c body => closed_cond params c && closed params body
  | SSeq s1 s2 => closed params s1 && closed params s2
  | SAssign _ _ => false
  | SThrow _ => true
  end.

Definition same_builtin (f g : builtin) : bool :=
  match f, g with
  | Math_max, Math_max | Math_min, Math_min => true
  | _, _ => false
  end.

Fixpoint calls_expr (f : builtin) (e : expr) : bool :=
  match e with
  | Var _ => false
  | MathCall g a b => same_builtin f g || calls_expr f a || calls_expr f b
  end.

Definition calls_cond (f : builtin) (c : cond) : bool :=
  match c with
  | Lt a b | Gt a b => calls_expr f a || calls_expr f b
  end.

Fixpoint calls (f : builtin) (s : stmt) : bool :=
  match s with
  | SReturn e => calls_expr f e
  | SIf c body => calls_cond f c || calls f body
  | SSeq s1 s2 => calls f s1 || calls f s2
  | SAssign _ e => calls_expr f e
  | SThrow _ => false
  end.

(** The realm of a program that left [Math] alone. *)
Definition pristine (vars : store) : realm :=
  {| math_max := std_max; math_min := std_min; vars := vars |}.

End Js.

(** ** The order on numbers *)

(** Case analysis on signs, exponents and mantissas, for goals in which
    the compared numbers are already split into their constructors. *)
Ltac by_cases :=
  repeat match goal with
    | b : bool |- _ => destruct b
    end;
  cbn; try congruence;
  repeat match goal with
    | |- context [Z.compare ?a ?b] =>
        destruct (Z.compare_spec a b); cbn; subst
    | H : context [Z.compare ?a ?b] |- _ =>
        destruct (Z.compare_spec a b); cbn in H; subst
    | |- context [Pos.compare_cont Eq ?a ?b] =>
        change (Pos.compare_cont Eq a b) with (Pos.compare a b);
        destruct (Pos.compare_spec a b); cbn; subst
    | H : context [Pos.compare_cont Eq ?a ?b] |- _ =>
        change (Pos.compare_cont Eq a b) with (Pos.compare a b) in H;
        destruct (Pos.compare_spec a b); cbn in H; subst
    end;
  try congruence; try lia; auto.

Lemma SFcompare_nan (x y : number) :
  SFcompare x y = None <-> isNaN x = true \/ isNaN y = true.
Proof.
  destruct x, y; cbn; split; intros H;
    try discriminate; try tauto; destruct H; discriminate.
Qed.

Lemma SFcompare_swap (x y : number) :
  SFcompare y x = option_map CompOpp (SFcompare x y).
Proof. destruct x, y; by_cases. Qed.

Lemma SFcompare_refl (x : number) :
  isNaN x = false -> SFcompare x x = Some Eq.
Proof. destruct x; by_cases. Qed.

(** Numbers that compare equal compare alike with any third one. *)
Lemma SFcompare_eq_l (x y z : number) :
  SFcompare x y = Some Eq -> SFcompare x z = SFcompare y z.
Proof. destruct x, y, z; by_cases. Qed.

Lemma SFcompare_eq_r (x y z : number) :
  SFcompare x y = Some Eq -> SFcompare z x = SFcompare z y.
Proof.
  intros H. rewrite (SFcompare_swap x z), (SFcompare_swap y z).
  now rewrite (SFcompare_eq_l x y z H).
Qed.

Lemma SFcompare_lt_trans (x y z : number) :
  SFcompare x y = Some Lt -> SFcompare y z = Some Lt ->
  SFcompare x z = Some Lt.
Proof. destruct x, y, z; by_cases. Qed.


(** ** [Math.max] and [Math.min] of two arguments *)

Lemma max2_spec (a b : number) :
  match SFcompare a b with
  | Some Lt => Math.max [a; b] = b
  | Some Gt => Math.max [a; b] = a
  | Some Eq => Math.max [a; b] = a \/ Math.max [a; b] = b
  | None => Math.max [a; b] = NaN
  end.
Proof. destruct a, b; unfold Math.max, js_gt, SFltb; by_cases. Qed.

Lemma min2_spec (a b : number) :
  match SFcompare a b with
  | Some Lt => Math.min [a; b] = a
  | Some Gt => Math.min [a; b] = b
  | Some Eq => Math.min [a; b] = a \/ Math.min [a; b] = b
  | None => Math.min [a; b] = NaN
  end.
Proof. destruct a, b; unfold Math.min, js_lt, SFltb; by_cases. Qed.

(** ** The same number *)

Lemma same_number_refl (x : number) : (x == x)%js = true.
Proof.
  destruct (isNaN x) eqn:N.
  - destruct x; try discriminate; reflexivity.
  - unfold same_number, strict_eq, SFeqb. rewrite (SFcompare_refl x N).
    destruct x; reflexivity.
Qed.

Lemma same_number_of_compare (x y : number) :
  SFcompare x y = Some Eq -> (x == y)%js = true.
Proof.
  intros H. unfold same_number, strict_eq, SFeqb. rewrite H.
  destruct x, y; auto.
Qed.

Lemma same_number_of_compare_sym (x y : number) :
  SFcompare x y = Some Eq -> (y == x)%js = true.
Proof.
  intros H. apply same_number_of_compare.
  rewrite SFcompare_swap, H; reflexivity.
Qed.

Lemma same_number_char (x y : number) :
  (x == y)%js = true <->
  (isNaN x = true /\ isNaN y = true) \/ SFcompare x y = Some Eq.
Proof.
  unfold same_number, strict_eq, SFeqb.
  destruct (SFcompare x y) as [[]|] eqn:E;
    destruct x, y; cbn in *; intuition congruence.
Qed.

Lemma same_number_sym (x y : number) :
  (x == y)%js = true -> (y == x)%js = true.
Proof.
  rewrite !same_number_char. intros [[Hx Hy]|H]; [left; auto|right].
  rewrite SFcompare_swap, H; reflexivity.
Qed.

Lemma same_number_trans (x y z : number) :
  (x == y)%js = true -> (y == z)%js = true -> (x == z)%js = true.
Proof.
  rewrite !same_number_char. intros [[Hx Hy]|H] [[Hy' Hz]|H'].
  - left; auto.
  - assert (N : SFcompare y z = None)
      by (apply SFcompare_nan; left; assumption).
    congruence.
  - assert (N : SFcompare x y = None)
      by (apply SFcompare_nan; right; assumption).
    congruence.
  - right. now rewrite (SFcompare_eq_l x y z H).
Qed.

(** The same number compares alike. *)
Lemma SFcompare_same_l (x y z : number) :
  (x == y)%js = true -> SFcompare x z = SFcompare y z.
Proof.
  rewrite same_number_char. intros [[Hx Hy]|H].
  - destruct x, y; try discriminate; reflexivity.
  - now apply SFcompare_eq_l.
Qed.

Lemma SFcompare_same_r (x y z : number) :
  (x == y)%js = true -> SFcompare z x = SFcompare z y.
Proof.
  intros H. rewrite (SFcompare_swap x z), (SFcompare_swap y z).
  now rewrite (SFcompare_same_l x y z H).
Qed.

(** ** From the boolean tests to [SFcompare] *)

Lemma js_lt_compare (x y : number) :
  (x < y)%js = true <-> SFcompare x y = Some Lt.
Proof.
  unfold js_lt, SFltb.
  destruct (SFcompare x y) as [[]|]; intuition congruence.
Qed.

Lemma js_gt_compare (x y : number) :
  (x > y)%js = true <-> SFcompare x y = Some Gt.
Proof.
  unfold js_gt, SFltb. rewrite (SFcompare_swap x y).
  destruct (SFcompare x y) as [[]|]; cbn; intuition congruence.
Qed.

Lemma js_le_compare (x y : number) :
  (x <= y)%js = true <->
  SFcompare x y = Some Lt \/ SFcompare x y = Some Eq.
Proof.
  unfold js_le, SFleb.
  destruct (SFcompare x y) as [[]|]; intuition congruence.
Qed.

Lemma js_gt_lt (x y : number) : (x > y)%js = (y < x)%js.
Proof. reflexivity. Qed.

Lemma js_le_not_nan (x y : number) :
  (x <= y)%js = true -> isNaN x = false /\ isNaN y = false.
Proof.
  unfold js_le, SFleb. destruct x, y; cbn; intros; auto; discriminate.
Qed.

Lemma js_lt_not_nan (x y : number) :
  (x < y)%js = true -> isNaN x = false /\ isNaN y = false.
Proof.
  unfold js_lt, SFltb. destruct x, y; cbn; intros; auto; discriminate.
Qed.

Lemma SFcompare_some (x y : number) :
  isNaN x = false -> isNaN y = false -> exists c, SFcompare x y = Some c.
Proof.
  intros Hx Hy. destruct (SFcompare x y) as [c|] eqn:E; [now exists c|].
  apply SFcompare_nan in E. destruct E; congruence.
Qed.

(** An ordered pair of bounds with a value above the upper one: the
    value is above the lower one too. *)
Lemma above_upper_above_lower (v lo hi : number) :
  (lo <= hi)%js = true -> (v > hi)%js = true -> SFcompare v lo = Some Gt.
Proof.
  rewrite js_le_compare, js_gt_compare. intros Hle Hgt.
  assert (Hhv : SFcompare hi v = Some Lt)
    by (rewrite SFcompare_swap, Hgt; reflexivity).
  assert (Hlv : SFcompare lo v = Some Lt).
  { destruct Hle as [Hle|Hle].
    - exact (SFcompare_lt_trans _ _ _ Hle Hhv).
    - now rewrite (SFcompare_eq_l _ _ v Hle). }
  rewrite SFcompare_swap, Hlv; reflexivity.
Qed.

(** ** The body built from [Math.min] and [Math.max] *)

Lemma minmax_eval {St} (s : St) (value min max : number) :
  MinMax.clamp value min max s
  = (Value (Math.min [Math.max [value; min]; max]), s).
Proof. reflexivity. Qed.

Lemma minmax_below (v lo hi : number) :
  (lo <= hi)%js = true -> (v < lo)%js = true ->
  (Math.min [Math.max [v; lo]; hi] == lo)%js = true.
Proof.
  rewrite js_le_compare, js_lt_compare. intros Hle Hlt.
  pose proof (max2_spec v lo) as M. rewrite Hlt in M. rewrite M.
  pose proof (min2_spec lo hi) as N.
  destruct Hle as [Hle|Hle]; rewrite Hle in N.
  - rewrite N. apply same_number_refl.
  - destruct N as [-> | ->].
    + apply same_number_refl.
    + now apply same_number_of_compare_sym.
Qed.

Lemma minmax_above (v lo hi : number) :
  (lo <= hi)%js = true -> (v > hi)%js = true ->
  Math.min [Math.max [v; lo]; hi] = hi.
Proof.
  intros Hle Hgt.
  pose proof (max2_spec v lo) as M.
  rewrite (above_upper_above_lower v lo hi Hle Hgt) in M. rewrite M.
  pose proof (min2_spec v hi) as N.
  apply js_gt_compare in Hgt. now rewrite Hgt in N.
Qed.

Lemma minmax_nan (v lo hi : number) :
  isNaN v = true -> Math.min [Math.max [v; lo]; hi] = NaN.
Proof. destruct v; try discriminate. reflexivity. Qed.

Lemma minmax_inside (v lo hi : number) :
  (lo <= hi)%js = true -> (v < lo)%js = false -> (v > hi)%js = false ->
  (Math.min [Math.max [v; lo]; hi] == v)%js = true.
Proof.
  intros Hle Hlo Hhi.
  destruct (isNaN v) eqn:Hv.
  { rewrite (minmax_nan v lo hi Hv). destruct v; try discriminate.
    reflexivity. }
  destruct (js_le_not_nan _ _ Hle) as [Nlo Nhi].
  destruct (SFcompare_some v lo Hv Nlo) as [c Hc].
  destruct (SFcompare_some v hi Hv Nhi) as [d Hd].
  assert (c <> Lt) by (intros ->; apply js_lt_compare in Hc; congruence).
  assert (d <> Gt) by (intros ->; apply js_gt_compare in Hd; congruence).
  (* the inner [Math.max] is [v] or, when the two are equal, [lo] *)
  assert (Hmin_v : (Math.min [v; hi] == v)%js = true).
  { pose proof (min2_spec v hi) as N. rewrite Hd in N.
    destruct d; [ | rewrite N; apply same_number_refl | contradiction ].
    destruct N as [-> | ->];
      [apply same_number_refl | now apply same_number_of_compare_sym]. }
  pose proof (max2_spec v lo) as M. rewrite Hc in M.
  destruct c; [ | contradiction | now rewrite M ].
  destruct M as [-> | ->]; [assumption|].
  pose proof (min2_spec lo hi) as N.
  assert (Hlv : (lo == v)%js = true)
    by now apply same_number_of_compare_sym.
  apply js_le_compare in Hle. destruct Hle as [Hle|Hle]; rewrite Hle in N.
  - now rewrite N.
  - destruct N as [-> | ->]; [assumption|].
    apply same_number_of_compare_sym.
    now rewrite (SFcompare_eq_l _ _ hi Hc).
Qed.



(** With the bounds the wrong way round the upper one always wins,
    unless the value is NaN. *)
Lemma minmax_swapped (v lo hi : number) :
  (lo > hi)%js = true -> isNaN v = false ->
  Math.min [Math.max [v; lo]; hi] = hi.
Proof.
  intros Hgt Hv.
  assert (Hlo : isNaN lo = false) by (apply (js_lt_not_nan hi lo Hgt)).
  apply js_gt_compare in Hgt.
  assert (Hlh : Math.min [lo; hi] = hi)
    by (pose proof (min2_spec lo hi) as N; now rewrite Hgt in N).
  assert (Hup : forall x, SFcompare x lo = Some Gt -> Math.min [x; hi] = hi).
  { intros x Hx. pose proof (min2_spec x hi) as N.
    assert (Hxh : SFcompare x hi = Some Gt).
    { rewrite SFcompare_swap.
      rewrite (SFcompare_lt_trans hi lo x); [reflexivity| |];
        rewrite SFcompare_swap; [rewrite Hgt|rewrite Hx]; reflexivity. }
    now rewrite Hxh in N. }
  destruct (SFcompare_some v lo Hv Hlo) as [c Hc].
  pose proof (max2_spec v lo) as M. rewrite Hc in M.
  destruct c.
  - destruct M as [-> | ->]; [|assumption].
    pose proof (min2_spec v hi) as N.
    rewrite (SFcompare_eq_l v lo hi Hc), Hgt in N. assumption.
  - now rewrite M.
  - rewrite M. now apply Hup.
Qed.

Lemma max2_same (a1 b1 a2 b2 : number) :
  (a1 == a2)%js = true -> (b1 == b2)%js = true ->
  (Math.max [a1; b1] == Math.max [a2; b2])%js = true.
Proof.
  intros Ha Hb.
  pose proof (max2_spec a1 b1) as M1. pose proof (max2_spec a2 b2) as M2.
  rewrite (SFcompare_same_l a1 a2 b1 Ha), (SFcompare_same_r b1 b2 a2 Hb) in M1.
  assert (Hab : SFcompare a2 b2 = Some Eq -> (a1 == b2)%js = true)
    by (intros E; apply (same_number_trans _ a2); auto;
        now apply same_number_of_compare).
  assert (Hba : SFcompare a2 b2 = Some Eq -> (b1 == a2)%js = true)
    by (intros E; apply (same_number_trans _ b2); auto;
        now apply same_number_of_compare_sym).
  destruct (SFcompare a2 b2) as [[]|].
  - destruct M1 as [-> | ->], M2 as [-> | ->]; auto.
  - now rewrite M1, M2.
  - now rewrite M1, M2.
  - now rewrite M1, M2.
Qed.

Lemma min2_same (a1 b1 a2 b2 : number) :
  (a1 == a2)%js = true -> (b1 == b2)%js = true ->
  (Math.min [a1; b1] == Math.min [a2; b2])%js = true.
Proof.
  intros Ha Hb.
  pose proof (min2_spec a1 b1) as M1. pose proof (min2_spec a2 b2) as M2.
  rewrite (SFcompare_same_l a1 a2 b1 Ha), (SFcompare_same_r b1 b2 a2 Hb) in M1.
  assert (Hab : SFcompare a2 b2 = Some Eq -> (a1 == b2)%js = true)
    by (intros E; apply (same_number_trans _ a2); auto;
        now apply same_number_of_compare).
  assert (Hba : SFcompare a2 b2 = Some Eq -> (b1 == a2)%js = true)
    by (intros E; apply (same_number_trans _ b2); auto;
        now apply same_number_of_compare_sym).
  destruct (SFcompare a2 b2) as [[]|].
  - destruct M1 as [-> | ->], M2 as [-> | ->]; auto.
  - now rewrite M1, M2.
  - now rewrite M1, M2.
  - now rewrite M1, M2.
Qed.

Lemma minmax_same (v1 lo1 hi1 v2 lo2 hi2 : number) :
  (v1 == v2)%js = true -> (lo1 == lo2)%js = true -> (hi1 == hi2)%js = true ->
  (Math.min [Math.max [v1; lo1]; hi1] == Math.min [Math.max [v2; lo2]; hi2])%js
  = true.
Proof. intros Hv Hlo Hhi. now apply min2_same; [apply max2_same|]. Qed.

(** ** The body made of sequential bound checks *)

Lemma sequential_eval {St} (s : St) (value min max : number) :
  Sequential.clamp value min max s
  = (Value (if (value < min)%js then min
            else if (value > max)%js then max else value), s).
Proof.
  unfold Sequential.clamp, call, seq, if_.
  destruct (value < min)%js, (value > max)%js; reflexivity.
Qed.

Lemma js_lt_same (x1 y1 x2 y2 : number) :
  (x1 == x2)%js = true -> (y1 == y2)%js = true ->
  (x1 < y1)%js = (x2 < y2)%js.
Proof.
  intros Hx Hy. unfold js_lt, SFltb.
  now rewrite (SFcompare_same_l x1 x2 y1 Hx), (SFcompare_same_r y1 y2 x2 Hy).
Qed.

Lemma js_le_same (x1 y1 x2 y2 : number) :
  (x1 == x2)%js = true -> (y1 == y2)%js = true ->
  (x1 <= y1)%js = (x2 <= y2)%js.
Proof.
  intros Hx Hy. unfold js_le, SFleb.
  now rewrite (SFcompare_same_l x1 x2 y1 Hx), (SFcompare_same_r y1 y2 x2 Hy).
Qed.

Lemma js_lt_irrefl (x : number) : (x < x)%js = false.
Proof.
  destruct (x < x)%js eqn:E; [|reflexivity].
  pose proof (js_lt_not_nan x x E) as [N _].
  apply js_lt_compare in E. rewrite (SFcompare_refl x N) in E. discriminate.
Qed.

Lemma js_le_not_gt (x y : number) : (x <= y)%js = true -> (x > y)%js = false.
Proof.
  rewrite js_le_compare. intros H.
  destruct (x > y)%js eqn:E; [|reflexivity].
  apply js_gt_compare in E. destruct H; congruence.
Qed.

Lemma js_le_refl (x : number) : isNaN x = false -> (x <= x)%js = true.
Proof. intros N. apply js_le_compare. right. now apply SFcompare_refl. Qed.

Lemma js_not_lt_ge (x y : number) :
  isNaN x = false -> isNaN y = false -> (x < y)%js = false ->
  (y <= x)%js = true.
Proof.
  intros Nx Ny H. destruct (SFcompare_some x y Nx Ny) as [c Hc].
  apply js_le_compare. rewrite SFcompare_swap, Hc.
  destruct c; cbn; auto.
  apply js_lt_compare in Hc. congruence.
Qed.

(** ** Membership of the interval *)

Lemma in_range_same (r x lo hi : number) :
  (r == x)%js = true -> in_range x lo hi = true -> in_range r lo hi = true.
Proof.
  intros H. unfold in_range.
  rewrite (js_le_same lo r lo x (same_number_refl lo) H).
  now rewrite (js_le_same r hi x hi H (same_number_refl hi)).
Qed.

Lemma in_range_cases (v lo hi : number) :
  isNaN v = false -> (lo <= hi)%js = true ->
  in_range (if (v < lo)%js then lo else if (v > hi)%js then hi else v) lo hi
  = true.
Proof.
  intros Nv Hle. destruct (js_le_not_nan lo hi Hle) as [Nlo Nhi].
  unfold in_range.
  destruct (v < lo)%js eqn:Hlo; [|destruct (v > hi)%js eqn:Hhi].
  - now rewrite (js_le_refl lo Nlo), Hle.
  - now rewrite (js_le_refl hi Nhi), Hle.
  - rewrite (js_not_lt_ge v lo Nv Nlo Hlo).
    now rewrite (js_not_lt_ge hi v Nhi Nv Hhi).
Qed.

Lemma max2_origin (a b : number) :
  Math.max [a; b] = a \/ Math.max [a; b] = b \/ Math.max [a; b] = NaN.
Proof.
  pose proof (max2_spec a b) as M.
  destruct (SFcompare a b) as [[]|]; tauto.
Qed.

Lemma min2_origin (a b : number) :
  Math.min [a; b] = a \/ Math.min [a; b] = b \/ Math.min [a; b] = NaN.
Proof.
  pose proof (min2_spec a b) as M.
  destruct (SFcompare a b) as [[]|]; tauto.
Qed.

(** ** Idempotence of the [Math.min]/[Math.max] body *)

Lemma max2_absorbs (a b : number) :
  Math.max [Math.max [a; b]; b] = Math.max [a; b].
Proof. destruct a, b; unfold Math.max, js_gt, SFltb; by_cases. Qed.

Lemma min2_max2_absorb (a b : number) :
  isNaN b = false -> Math.min [Math.max [a; b]; a] = a.
Proof.
  destruct a, b; unfold Math.max, Math.min, js_gt, js_lt, SFltb; by_cases.
Qed.

Lemma max2_nan_r (a b : number) :
  isNaN b = true -> Math.max [a; b] = NaN.
Proof. destruct b; try discriminate. destruct a; reflexivity. Qed.

Lemma minmax_idem (v lo hi : number) :
  Math.min [Math.max [Math.min [Math.max [v; lo]; hi]; lo]; hi]
  = Math.min [Math.max [v; lo]; hi].
Proof.
  destruct (isNaN lo) eqn:Nlo.
  { rewrite (max2_nan_r v lo Nlo). reflexivity. }
  pose proof (max2_absorbs v lo) as Hm.
  destruct (min2_origin (Math.max [v; lo]) hi) as [R|[R|R]]; rewrite R.
  - now rewrite Hm.
  - now apply min2_max2_absorb.
  - reflexivity.
Qed.

Lemma js_le_trans (x y z : number) :
  (x <= y)%js = true -> (y <= z)%js = true -> (x <= z)%js = true.
Proof.
  rewrite !js_le_compare. intros [Hxy|Hxy] [Hyz|Hyz].
  - left. exact (SFcompare_lt_trans _ _ _ Hxy Hyz).
  - left. now rewrite <- (SFcompare_eq_r y z x Hyz).
  - left. now rewrite (SFcompare_eq_l x y z Hxy).
  - right. now rewrite (SFcompare_eq_l x y z Hxy).
Qed.

(** With ordered bounds the two bodies compute the same number. *)
Lemma minmax_matches_checks (v lo hi : number) :
  (lo <= hi)%js = true ->
  (Math.min [Math.max [v; lo]; hi]
   == (if (v < lo)%js then lo else if (v > hi)%js then hi else v))%js = true.
Proof.
  intros Hle.
  destruct (v < lo)%js eqn:Hlo; [|destruct (v > hi)%js eqn:Hhi].
  - now apply minmax_below.
  - rewrite (minmax_above v lo hi Hle Hhi). apply same_number_refl.
  - now apply minmax_inside.
Qed.

(** Whatever the arguments, the sequential body hands back one of them;
    the other body hands back one of them or NaN. *)
Lemma sequential_result_origin (v lo hi r : number) :
  r = (if (v < lo)%js then lo else if (v > hi)%js then hi else v) ->
  r = v \/ r = lo \/ r = hi.
Proof. intros ->. destruct (v < lo)%js, (v > hi)%js; auto. Qed.

Lemma minmax_result_origin (v lo hi r : number) :
  r = Math.min [Math.max [v; lo]; hi] ->
  r = v \/ r = lo \/ r = hi \/ r = NaN.
Proof.
  intros ->.
  destruct (min2_origin (Math.max [v; lo]) hi) as [N|[N|N]];
    rewrite N; auto.
  destruct (max2_origin v lo) as [M|[M|M]]; rewrite M; auto.
Qed.

(** Binary64 arguments give a binary64 result. *)
Lemma clamp_is_double {St} (s : St) (v lo hi : number) :
  is_double v = true -> is_double lo = true -> is_double hi = true ->
  (exists r, MinMax.clamp v lo hi s = (Value r, s) /\ is_double r = true) /\
  (exists r, Sequential.clamp v lo hi s = (Value r, s) /\ is_double r = true).
Proof.
  intros Hv Hlo Hhi. split.
  - rewrite minmax_eval. eexists; split; [reflexivity|].
    destruct (minmax_result_origin v lo hi _ eq_refl) as [E|[E|[E|E]]];
      rewrite E; auto.
  - rewrite sequential_eval. eexists; split; [reflexivity|].
    destruct (sequential_result_origin v lo hi _ eq_refl) as [E|[E|E]];
      rewrite E; auto.
Qed.

(** The literals of the examples are binary64 values. *)
Example literals_are_doubles :
  forallb is_double
    [of_Z 0; of_Z 5; neg (of_Z 5); of_Z 10; of_Z 15; of_Z 50; of_Z 100;
     of_Z 150; NaN; Infinity; neg Infinity; pos_zero; neg_zero] = true.
Proof. reflexivity. Qed.

(** The two bodies may disagree on the sign of a zero result: [-0]
    clamped to the interval from [+0] to [5] comes back as [+0] from
    [Math.max], and untouched from the sequential checks.  Both are the
    number zero, and [===] does not tell them apart. *)
Example zero_sign_may_differ :
  MinMax.clamp neg_zero pos_zero (of_Z 5) tt = (Value pos_zero, tt) /\
  Sequential.clamp neg_zero pos_zero (of_Z 5) tt = (Value neg_zero, tt) /\
  strict_eq pos_zero neg_zero = true.
Proof. repeat split. Qed.

(** Each guard snippet throws on the input the post shows next to it. *)
Lemma guard_bounds_throws {St} (s : St) (min max : number) (rest : stmt St) :
  (min > max)%js = true ->
  call (guard_bounds min max ;; rest) s
  = (Exception "Lower limit cannot be greater than upper limit", s).
Proof. intros H. unfold call, seq, guard_bounds, if_. now rewrite H. Qed.

Lemma guard_nan_throws {St} (s : St) (value min max : number)
  (rest : stmt St) :
  isNaN value || isNaN min || isNaN max = true ->
  call (guard_nan value min max ;; rest) s
  = (Exception "All inputs must be numbers", s).
Proof. intros H. unfold call, seq, guard_nan, if_. now rewrite H. Qed.

Lemma guard_infinite_throws {St} (s : St) (value min max : number)
  (rest : stmt St) :
  negb (isFinite value) || negb (isFinite min) || negb (isFinite max) = true ->
  call (guard_infinite value min max ;; rest) s
  = (Exception "Inputs cannot be infinite", s).
Proof. intros H. unfold call, seq, guard_infinite, if_. now rewrite H. Qed.

Example guards_on_the_documented_inputs :
  call (guard_bounds (of_Z 15) (of_Z 5) ;; skip) tt
  = (Exception "Lower limit cannot be greater than upper limit", tt) /\
  call (guard_nan NaN (of_Z 0) (of_Z 10) ;; skip) tt
  = (Exception "All inputs must be numbers", tt) /\
  call (guard_infinite (of_Z 50) (neg Infinity) Infinity ;; skip) tt
  = (Exception "Inputs cannot be infinite", tt).
Proof. repeat split. Qed.

(** * The claims *)

(** C1.  With [lowerBound <= upperBound], [clamp] gives [lowerBound] when
    [value < lowerBound], [upperBound] when [value > upperBound], and
    [value] otherwise.  The sequential body returns the argument itself in
    each case; the [Math.min]/[Math.max] body returns the same number. *)
Theorem clamp_by_cases {St} (s : St) (value lowerBound upperBound : number) :
  (lowerBound <= upperBound)%js = true ->
  ((value < lowerBound)%js = true ->
     returns (Sequential.clamp value lowerBound upperBound) s lowerBound /\
     yields (MinMax.clamp value lowerBound upperBound) s lowerBound) /\
  ((value > upperBound)%js = true ->
     returns (Sequential.clamp value lowerBound upperBound) s upperBound /\
     returns (MinMax.clamp value lowerBound upperBound) s upperBound) /\
  ((value < lowerBound)%js = false -> (value > upperBound)%js = false ->
     returns (Sequential.clamp value lowerBound upperBound) s value /\
     yields (MinMax.clamp value lowerBound upperBound) s value).
Proof.
  intros Hle. unfold returns, yields.
  rewrite sequential_eval, minmax_eval. split; [|split].
  - intros Hlt. split.
    + now rewrite Hlt.
    + eexists; split; [reflexivity|]. now apply minmax_below.
  - intros Hgt. split.
    + assert (Hlt : (value < lowerBound)%js = false).
      { pose proof (above_upper_above_lower _ _ _ Hle Hgt) as G.
        unfold js_lt, SFltb. now rewrite G. }
      now rewrite Hlt, Hgt.
    + now rewrite (minmax_above _ _ _ Hle Hgt).
  - intros Hlt Hgt. split.
    + now rewrite Hlt, Hgt.
    + eexists; split; [reflexivity|]. now apply minmax_inside.
Qed.

Lemma clamp_by_cases_witness :
  (returns (Sequential.clamp (neg (of_Z 5)) (of_Z 0) (of_Z 100)) tt (of_Z 0) /\
   yields (MinMax.clamp (neg (of_Z 5)) (of_Z 0) (of_Z 100)) tt (of_Z 0)) /\
  (returns (Sequential.clamp (of_Z 150) (of_Z 0) (of_Z 100)) tt (of_Z 100) /\
   returns (MinMax.clamp (of_Z 150) (of_Z 0) (of_Z 100)) tt (of_Z 100)) /\
  (returns (Sequential.clamp (of_Z 50) (of_Z 0) (of_Z 100)) tt (of_Z 50) /\
   yields (MinMax.clamp (of_Z 50) (of_Z 0) (of_Z 100)) tt (of_Z 50)).
Proof.
  split; [|split].
  - apply (clamp_by_cases tt (neg (of_Z 5)) (of_Z 0) (of_Z 100));
      reflexivity.
  - apply (clamp_by_cases tt (of_Z 150) (of_Z 0) (of_Z 100)); reflexivity.
  - apply (clamp_by_cases tt (of_Z 50) (of_Z 0) (of_Z 100)); reflexivity.
Defined.

(** C2, as stated, fails: [clamp(NaN, 0, 10)] is NaN under both bodies,
    and NaN lies in no interval (the post itself lists this call with the
    output NaN). *)
Lemma clamp_NaN_escapes_the_interval :
  (of_Z 0 <= of_Z 10)%js = true /\
  Sequential.clamp NaN (of_Z 0) (of_Z 10) tt = (Value NaN, tt) /\
  MinMax.clamp NaN (of_Z 0) (of_Z 10) tt = (Value NaN, tt) /\
  ~ lands_in (Sequential.clamp NaN (of_Z 0) (of_Z 10)) tt (of_Z 0) (of_Z 10) /\
  ~ lands_in (MinMax.clamp NaN (of_Z 0) (of_Z 10)) tt (of_Z 0) (of_Z 10).
Proof.
  repeat split; intros [r [E R]]; inversion E; subst r; discriminate.
Qed.

(** C2, amended.  With [lowerBound <= upperBound] and a [value] that is
    not NaN, the result of [clamp] lies in the closed interval from
    [lowerBound] to [upperBound], under both bodies. *)
Theorem clamp_within_bounds {St} (s : St)
  (value lowerBound upperBound : number) :
  isNaN value = false -> (lowerBound <= upperBound)%js = true ->
  lands_in (Sequential.clamp value lowerBound upperBound) s
           lowerBound upperBound /\
  lands_in (MinMax.clamp value lowerBound upperBound) s
           lowerBound upperBound.
Proof.
  intros Nv Hle. unfold lands_in. rewrite sequential_eval, minmax_eval.
  split; (eexists; split; [reflexivity|]).
  - now apply in_range_cases.
  - eapply in_range_same; [now apply minmax_matches_checks|].
    now apply in_range_cases.
Qed.

Lemma clamp_within_bounds_witness :
  lands_in (Sequential.clamp (of_Z 150) (of_Z 0) (of_Z 100)) tt
           (of_Z 0) (of_Z 100) /\
  lands_in (MinMax.clamp (of_Z 150) (of_Z 0) (of_Z 100)) tt
           (of_Z 0) (of_Z 100).
Proof.
  apply (clamp_within_bounds tt (of_Z 150) (of_Z 0) (of_Z 100)); reflexivity.
Defined.

(** C3.  With [lowerBound <= value] and [value <= upperBound], [clamp]
    gives [value]: the sequential body returns the argument itself, the
    [Math.min]/[Math.max] body the same number. *)
Theorem clamp_identity_inside {St} (s : St)
  (value lowerBound upperBound : number) :
  (lowerBound <= value)%js = true -> (value <= upperBound)%js = true ->
  returns (Sequential.clamp value lowerBound upperBound) s value /\
  yields (MinMax.clamp value lowerBound upperBound) s value.
Proof.
  intros Hlo Hhi.
  assert (Hle := js_le_trans _ _ _ Hlo Hhi).
  assert (Hnlt : (value < lowerBound)%js = false)
    by (rewrite <- js_gt_lt; now apply js_le_not_gt).
  assert (Hngt := js_le_not_gt _ _ Hhi).
  unfold returns, yields. rewrite sequential_eval, minmax_eval. split.
  - now rewrite Hnlt, Hngt.
  - eexists; split; [reflexivity|]. now apply minmax_inside.
Qed.

Lemma clamp_identity_inside_witness :
  returns (Sequential.clamp (of_Z 50) (of_Z 0) (of_Z 100)) tt (of_Z 50) /\
  yields (MinMax.clamp (of_Z 50) (of_Z 0) (of_Z 100)) tt (of_Z 50).
Proof.
  apply (clamp_identity_inside tt (of_Z 50) (of_Z 0) (of_Z 100)); reflexivity.
Defined.

(** C4, as stated, fails: with [min > max] the sequential body is not
    idempotent.  [clamp(10, 15, 5)] is 15, and [clamp(15, 15, 5)] is 5. *)
Lemma sequential_clamp_not_idempotent :
  Sequential.clamp (of_Z 10) (of_Z 15) (of_Z 5) tt = (Value (of_Z 15), tt) /\
  Sequential.clamp (of_Z 15) (of_Z 15) (of_Z 5) tt = (Value (of_Z 5), tt) /\
  (of_Z 5 == of_Z 15)%js = false /\
  ~ idempotent_at Sequential.clamp tt (of_Z 10) (of_Z 15) (of_Z 5).
Proof.
  repeat split. intros [r [E R]]. inversion E; subst r. discriminate.
Qed.

(** C4, amended.  The [Math.min]/[Math.max] body is idempotent for all
    [value], [min], [max]; the sequential body is idempotent whenever
    [min > max] does not hold, in particular whenever [min <= max]. *)
Theorem clamp_idempotent {St} (s : St) (value min max : number) :
  idempotent_at MinMax.clamp s value min max /\
  ((min > max)%js = false -> idempotent_at Sequential.clamp s value min max).
Proof.
  unfold idempotent_at. split.
  - eexists; split; [apply minmax_eval|].
    rewrite minmax_eval. now rewrite minmax_idem.
  - intros H. eexists; split; [apply sequential_eval|].
    rewrite sequential_eval.
    destruct (value < min)%js eqn:Hlo; [|destruct (value > max)%js eqn:Hhi].
    + now rewrite js_lt_irrefl, H.
    + rewrite js_gt_lt in H. rewrite H.
      rewrite js_gt_lt. now rewrite js_lt_irrefl.
    + now rewrite Hlo, Hhi.
Qed.

Lemma clamp_idempotent_witness :
  idempotent_at MinMax.clamp tt (of_Z 150) (of_Z 0) (of_Z 100) /\
  idempotent_at Sequential.clamp tt (of_Z 150) (of_Z 0) (of_Z 100).
Proof.
  split.
  - apply (clamp_idempotent tt (of_Z 150) (of_Z 0) (of_Z 100)).
  - apply (clamp_idempotent tt (of_Z 150) (of_Z 0) (of_Z 100)). reflexivity.
Defined.

(** C5.  For [min <= max] the two published bodies return the same
    number, whatever the [value]. *)
Theorem clamp_bodies_agree {St} (s : St) (value min max : number) :
  (min <= max)%js = true ->
  agree (MinMax.clamp value min max) s (Sequential.clamp value min max) s.
Proof.
  intros Hle. unfold agree. rewrite minmax_eval, sequential_eval.
  do 2 eexists. repeat split. now apply minmax_matches_checks.
Qed.

Lemma clamp_bodies_agree_witness :
  agree (MinMax.clamp (neg (of_Z 5)) (of_Z 0) (of_Z 100)) tt
        (Sequential.clamp (neg (of_Z 5)) (of_Z 0) (of_Z 100)) tt.
Proof.
  apply (clamp_bodies_agree tt (neg (of_Z 5)) (of_Z 0) (of_Z 100)).
  reflexivity.
Defined.

(** C6.  For [min <= max] the two bounds are fixed points:
    [clamp(min, min, max)] is [min] and [clamp(max, min, max)] is [max]. *)
Theorem clamp_fixes_the_bounds {St} (s : St) (min max : number) :
  (min <= max)%js = true ->
  (returns (Sequential.clamp min min max) s min /\
   yields (MinMax.clamp min min max) s min) /\
  (returns (Sequential.clamp max min max) s max /\
   yields (MinMax.clamp max min max) s max).
Proof.
  intros Hle.
  assert (Hgt := js_le_not_gt _ _ Hle).
  assert (Hlt : (max < min)%js = false) by now rewrite <- js_gt_lt.
  assert (Hmm : (max > max)%js = false)
    by (rewrite js_gt_lt; apply js_lt_irrefl).
  unfold returns, yields. rewrite !sequential_eval, !minmax_eval.
  rewrite js_lt_irrefl, Hgt, Hlt, Hmm. repeat split.
  - eexists; split; [reflexivity|].
    apply minmax_inside; auto using js_lt_irrefl.
  - eexists; split; [reflexivity|]. now apply minmax_inside.
Qed.

Lemma clamp_fixes_the_bounds_witness :
  (returns (Sequential.clamp (of_Z 0) (of_Z 0) (of_Z 100)) tt (of_Z 0) /\
   yields (MinMax.clamp (of_Z 0) (of_Z 0) (of_Z 100)) tt (of_Z 0)) /\
  (returns (Sequential.clamp (of_Z 100) (of_Z 0) (of_Z 100)) tt (of_Z 100) /\
   yields (MinMax.clamp (of_Z 100) (of_Z 0) (of_Z 100)) tt (of_Z 100)).
Proof.
  apply (clamp_fixes_the_bounds tt (of_Z 0) (of_Z 100)). reflexivity.
Defined.

(** C7.  The four example calls: [clamp(50, 0, 100)] is 50,
    [clamp(-5, 0, 100)] is 0, [clamp(150, 0, 100)] is 100 and
    [clamp(5, 10, 10)] is 10, under both bodies. *)
Theorem clamp_examples {St} (s : St) :
  (returns (MinMax.clamp (of_Z 50) (of_Z 0) (of_Z 100)) s (of_Z 50) /\
   returns (Sequential.clamp (of_Z 50) (of_Z 0) (of_Z 100)) s (of_Z 50)) /\
  (returns (MinMax.clamp (neg (of_Z 5)) (of_Z 0) (of_Z 100)) s (of_Z 0) /\
   returns (Sequential.clamp (neg (of_Z 5)) (of_Z 0) (of_Z 100)) s (of_Z 0)) /\
  (returns (MinMax.clamp (of_Z 150) (of_Z 0) (of_Z 100)) s (of_Z 100) /\
   returns (Sequential.clamp (of_Z 150) (of_Z 0) (of_Z 100)) s (of_Z 100)) /\
  (returns (MinMax.clamp (of_Z 5) (of_Z 10) (of_Z 10)) s (of_Z 10) /\
   returns (Sequential.clamp (of_Z 5) (of_Z 10) (of_Z 10)) s (of_Z 10)).
Proof. repeat split. Qed.

(** ** What a body reads and writes *)

Lemma realm_eta (r : Js.realm) :
  {| Js.math_max := Js.math_max r;
     Js.math_min := Js.math_min r;
     Js.vars := Js.vars r |} = r.
Proof. destruct r; reflexivity. Qed.

Lemma lookup_bound (x : string) (params : Js.store) :
  existsb (String.eqb x) (map fst params) = true ->
  exists v, Js.lookup x params = Some v.
Proof.
  induction params as [|[y v] rest IH]; cbn; [discriminate|].
  destruct (String.eqb x y); [now exists v|exact IH].
Qed.

(** An expression whose identifiers are all parameters, evaluated in two
    realms in which the [Math] members it calls are the built-in ones,
    has the same value in both and leaves both as they were. *)
Lemma closed_expr_footprint (params : Js.store) (e : Js.expr)
  (r1 r2 : Js.realm) :
  Js.closed_expr (map fst params) e = true ->
  (forall f, Js.calls_expr f e = true ->
             Js.binding f r1 = Js.std f /\ Js.binding f r2 = Js.std f) ->
  exists v, Js.eval params e r1 = (Js.Ok v, r1) /\
            Js.eval params e r2 = (Js.Ok v, r2).
Proof.
  induction e as [x|f a IHa b IHb]; cbn [Js.closed_expr Js.eval]; intros C S.
  - destruct (lookup_bound x params C) as [v Hv]. rewrite Hv. now exists v.
  - apply andb_true_iff in C. destruct C as [Ca Cb].
    destruct (IHa Ca) as [va [A1 A2]].
    { intros g Hg. apply S. cbn. rewrite Hg. now rewrite orb_true_r. }
    destruct (IHb Cb) as [vb [B1 B2]].
    { intros g Hg. apply S. cbn. rewrite Hg. now rewrite orb_true_r. }
    rewrite A1, A2, B1, B2.
    destruct (S f) as [S1 S2].
    { cbn. now destruct f. }
    rewrite S1, S2.
    exists (match f with
            | Js.Math_max => Math.max [va; vb]
            | Js.Math_min => Math.min [va; vb]
            end).
    destruct f; unfold Js.std, Js.std_max, Js.std_min;
      cbv beta iota zeta; rewrite (realm_eta r1), (realm_eta r2);
      split; reflexivity.
Qed.

Lemma closed_cond_footprint (params : Js.store) (c : Js.cond)
  (r1 r2 : Js.realm) :
  Js.closed_cond (map fst params) c = true ->
  (forall f, Js.calls_cond f c = true ->
             Js.binding f r1 = Js.std f /\ Js.binding f r2 = Js.std f) ->
  exists t, Js.test params c r1 = (Js.Ok t, r1) /\
            Js.test params c r2 = (Js.Ok t, r2).
Proof.
  destruct c as [a b|a b]; cbn [Js.closed_cond Js.test Js.calls_cond];
    intros C S; apply andb_true_iff in C; destruct C as [Ca Cb];
    (destruct (closed_expr_footprint params a r1 r2 Ca) as [va [A1 A2]];
     [intros g Hg; apply S; now rewrite Hg|]);
    (destruct (closed_expr_footprint params b r1 r2 Cb) as [vb [B1 B2]];
     [intros g Hg; apply S; rewrite Hg; now rewrite orb_true_r|]);
    rewrite A1, A2, B1, B2; eexists; split; reflexivity.
Qed.

(** The same for a statement that, besides, assigns nothing: it completes
    in the same way in both realms and leaves both as they were. *)
Lemma closed_footprint (params : Js.store) (s : Js.stmt) (r1 r2 : Js.realm) :
  Js.closed (map fst params) s = true ->
  (forall f, Js.calls f s = true ->
             Js.binding f r1 = Js.std f /\ Js.binding f r2 = Js.std f) ->
  exists c, Js.exec params s r1 = (c, r1) /\ Js.exec params s r2 = (c, r2).
Proof.
  induction s as [e|c body IH|s1 IH1 s2 IH2|x e|msg];
    cbn [Js.closed Js.exec Js.calls]; intros C S.
  - destruct (closed_expr_footprint params e r1 r2 C S) as [v [E1 E2]].
    rewrite E1, E2. now eexists.
  - apply andb_true_iff in C. destruct C as [Cc Cb].
    destruct (closed_cond_footprint params c r1 r2 Cc) as [t [T1 T2]].
    { intros g Hg. apply S. now rewrite Hg. }
    rewrite T1, T2. destruct t; [|now eexists].
    apply IH; [exact Cb|]. intros g Hg. apply S. rewrite Hg.
    now rewrite orb_true_r.
  - apply andb_true_iff in C. destruct C as [C1 C2].
    destruct (IH1 C1) as [c1 [E1 E2]].
    { intros g Hg. apply S. now rewrite Hg. }
    rewrite E1, E2. destruct c1; try (now eexists).
    apply IH2; [exact C2|]. intros g Hg. apply S. rewrite Hg.
    now rewrite orb_true_r.
  - discriminate.
  - now eexists.
Qed.

(** A statement that assigns is not free of side effects, and one that
    names a global depends on it. *)
Example assignment_writes_and_global_reads :
  Js.exec [("value", of_Z 1)] (Js.SAssign "seen" (Js.Var "value"))
          (Js.pristine [])
  = (Normal, Js.pristine [("seen", of_Z 1)]) /\
  Js.exec [] (Js.SReturn (Js.Var "limit")) (Js.pristine [("limit", of_Z 1)])
  = (Return (of_Z 1), Js.pristine [("limit", of_Z 1)]) /\
  Js.exec [] (Js.SReturn (Js.Var "limit")) (Js.pristine [("limit", of_Z 2)])
  = (Return (of_Z 2), Js.pristine [("limit", of_Z 2)]).
Proof. repeat split. Qed.

(** The bodies as syntax compute what the two bodies above compute: the
    sequential one in every realm, the other one when [Math.max] and
    [Math.min] are the built-in ones. *)
Lemma run_sequential_clamp (r : Js.realm) (value min max : number) :
  Js.run Js.sequential_clamp value min max r
  = Sequential.clamp value min max r.
Proof.
  rewrite sequential_eval. unfold Js.run, call. cbn.
  destruct (value < min)%js; [reflexivity|].
  destruct (value > max)%js; reflexivity.
Qed.

Lemma run_minmax_clamp (r : Js.realm) (value min max : number) :
  Js.standard r ->
  Js.run Js.minmax_clamp value min max r = MinMax.clamp value min max r.
Proof.
  destruct r as [mx mn vs]. intros [Hmax Hmin]. cbn in Hmax, Hmin.
  subst mx mn. reflexivity.
Qed.

(** The identifiers of both bodies are their parameters, neither assigns,
    and only the first calls [Math.max] and [Math.min]. *)
Lemma clamp_bodies_footprint :
  Js.closed ["value"; "min"; "max"] Js.sequential_clamp = true /\
  Js.closed ["value"; "min"; "max"] Js.minmax_clamp = true /\
  (forall f, Js.calls f Js.sequential_clamp = false) /\
  (forall f, Js.calls f Js.minmax_clamp = true).
Proof. repeat split; intros []; reflexivity. Qed.

(** Arguments that are the same numbers give results that are the same
    number. *)
Lemma clamp_respects_same_number {St1 St2} (s1 : St1) (s2 : St2)
  (value1 lowerBound1 upperBound1 value2 lowerBound2 upperBound2 : number) :
  (value1 == value2)%js = true -> (lowerBound1 == lowerBound2)%js = true ->
  (upperBound1 == upperBound2)%js = true ->
  agree (MinMax.clamp value1 lowerBound1 upperBound1) s1
        (MinMax.clamp value2 lowerBound2 upperBound2) s2 /\
  agree (Sequential.clamp value1 lowerBound1 upperBound1) s1
        (Sequential.clamp value2 lowerBound2 upperBound2) s2.
Proof.
  unfold agree. rewrite !minmax_eval, !sequential_eval.
  intros Hv Hlo Hhi. split; do 2 eexists; repeat split.
  - now apply minmax_same.
  - rewrite !js_gt_lt.
    rewrite (js_lt_same _ _ _ _ Hv Hlo), (js_lt_same _ _ _ _ Hhi Hv).
    destruct (value2 < lowerBound2)%js, (upperBound2 < value2)%js;
      assumption.
Qed.

(** C8, as stated, fails for the [Math.min]/[Math.max] body: it reads the
    global [Math.max] and [Math.min] and calls what it finds there.
    After [Math.max = Math.min], [clamp(50, 0, 100)] is 0 and no longer
    50; and with a [Math.max] that records its calls in a global, the
    call of [clamp] changes that global. *)
Lemma minmax_clamp_depends_on_Math :
  Js.run Js.minmax_clamp (of_Z 50) (of_Z 0) (of_Z 100) (Js.pristine [])
  = (Value (of_Z 50), Js.pristine []) /\
  Js.run Js.minmax_clamp (of_Z 50) (of_Z 0) (of_Z 100)
    {| Js.math_max := Js.std_min; Js.math_min := Js.std_min; Js.vars := [] |}
  = (Value (of_Z 0),
     {| Js.math_max := Js.std_min; Js.math_min := Js.std_min;
        Js.vars := [] |}) /\
  (of_Z 50 == of_Z 0)%js = false /\
  Js.vars
    (snd (Js.run Js.minmax_clamp (of_Z 50) (of_Z 0) (of_Z 100)
            {| Js.math_max :=
                 fun args s =>
                   (Js.Ok (Math.max args), Js.assign "calls" (of_Z 1) s);
               Js.math_min := Js.std_min;
               Js.vars := [] |}))
  = [("calls", of_Z 1)].
Proof. repeat split. Qed.

(** C8, amended.  Two calls of the sequential body with equal inputs
    return equal results, whatever the two states, and each leaves its
    state as it was: the body reads and writes nothing outside the call.
    The same holds for the [Math.min]/[Math.max] body provided the global
    [Math.max] and [Math.min], which it reads and calls, are the built-in
    ones in both states.  The results are those of the two bodies as
    modelled above. *)
Theorem clamp_pure (r1 r2 : Js.realm)
  (value lowerBound upperBound : number) :
  (exists x,
      Js.run Js.sequential_clamp value lowerBound upperBound r1
      = (Value x, r1) /\
      Js.run Js.sequential_clamp value lowerBound upperBound r2
      = (Value x, r2) /\
      returns (Sequential.clamp value lowerBound upperBound) r1 x) /\
  (Js.standard r1 -> Js.standard r2 ->
   exists x,
      Js.run Js.minmax_clamp value lowerBound upperBound r1 = (Value x, r1) /\
      Js.run Js.minmax_clamp value lowerBound upperBound r2 = (Value x, r2) /\
      returns (MinMax.clamp value lowerBound upperBound) r1 x).
Proof.
  destruct clamp_bodies_footprint as [Cs [Cm [Ns _]]]. split.
  - destruct (closed_footprint
                [("value", value); ("min", lowerBound); ("max", upperBound)]
                Js.sequential_clamp r1 r2 Cs) as [c [E1 E2]].
    { intros f Hf. rewrite Ns in Hf. discriminate. }
    pose proof (run_sequential_clamp r1 value lowerBound upperBound) as L.
    rewrite sequential_eval in L. unfold Js.run, call in *.
    rewrite E1 in L. rewrite E1, E2.
    destruct c; inversion L; subst.
    eexists. split; [reflexivity|]. split; [reflexivity|].
    unfold returns. now rewrite sequential_eval.
  - intros S1 S2.
    destruct (closed_footprint
                [("value", value); ("min", lowerBound); ("max", upperBound)]
                Js.minmax_clamp r1 r2 Cm) as [c [E1 E2]].
    { intros f _. destruct S1 as [M1 N1], S2 as [M2 N2].
      destruct f; cbn; auto. }
    pose proof (run_minmax_clamp r1 value lowerBound upperBound S1) as L.
    rewrite minmax_eval in L. unfold Js.run, call in *.
    rewrite E1 in L. rewrite E1, E2.
    destruct c; inversion L; subst.
    eexists. split; [reflexivity|]. split; [reflexivity|].
    unfold returns. now rewrite minmax_eval.
Qed.

Lemma clamp_pure_witness :
  exists x,
    Js.run Js.minmax_clamp (of_Z 150) (of_Z 0) (of_Z 100) (Js.pristine [])
    = (Value x, Js.pristine []) /\
    Js.run Js.minmax_clamp (of_Z 150) (of_Z 0) (of_Z 100)
      (Js.pristine [("calls", of_Z 7)])
    = (Value x, Js.pristine [("calls", of_Z 7)]) /\
    returns (MinMax.clamp (of_Z 150) (of_Z 0) (of_Z 100)) (Js.pristine []) x.
Proof.
  apply (clamp_pure (Js.pristine []) (Js.pristine [("calls", of_Z 7)])
           (of_Z 150) (of_Z 0) (of_Z 100)); split; reflexivity.
Defined.

(** C9, as stated, fails: with [min > max] the [Math.min]/[Math.max] body
    does not return [max] for every value.  [clamp(NaN, 15, 5)] is NaN. *)
Lemma minmax_clamp_NaN_swapped_bounds :
  (of_Z 15 > of_Z 5)%js = true /\
  MinMax.clamp NaN (of_Z 15) (of_Z 5) tt = (Value NaN, tt) /\
  (NaN == of_Z 5)%js = false /\
  ~ yields (MinMax.clamp NaN (of_Z 15) (of_Z 5)) tt (of_Z 5).
Proof.
  repeat split. intros [r [E R]]. inversion E; subst r. discriminate.
Qed.

(** C9, amended.  With [min > max], the [Math.min]/[Math.max] body returns
    [max] for every value that is not NaN, the sequential body returns
    [min] for every value with [value < min], and at [value = max] the two
    bodies return different numbers. *)
Theorem clamp_swapped_bounds {St} (s : St) (value min max : number) :
  (min > max)%js = true ->
  (isNaN value = false -> returns (MinMax.clamp value min max) s max) /\
  ((value < min)%js = true ->
   returns (Sequential.clamp value min max) s min) /\
  ~ agree (MinMax.clamp max min max) s (Sequential.clamp max min max) s.
Proof.
  intros Hgt. unfold returns, agree.
  rewrite !minmax_eval, !sequential_eval. split; [|split].
  - intros Nv. now rewrite (minmax_swapped value min max Hgt Nv).
  - intros Hlt. now rewrite Hlt.
  - rewrite js_gt_lt in Hgt. rewrite Hgt.
    assert (Nmax : isNaN max = false) by apply (js_lt_not_nan max min Hgt).
    rewrite <- js_gt_lt in Hgt.
    rewrite (minmax_swapped max min max Hgt Nmax).
    intros [r1 [r2 [E1 [E2 R]]]].
    inversion E1; inversion E2; subst r1 r2.
    apply same_number_char in R. destruct R as [[R _]|R]; [congruence|].
    apply js_gt_compare in Hgt.
    rewrite SFcompare_swap, R in Hgt. discriminate.
Qed.

Lemma clamp_swapped_bounds_witness :
  returns (MinMax.clamp (of_Z 10) (of_Z 15) (of_Z 5)) tt (of_Z 5) /\
  returns (Sequential.clamp (of_Z 10) (of_Z 15) (of_Z 5)) tt (of_Z 15) /\
  ~ agree (MinMax.clamp (of_Z 5) (of_Z 15) (of_Z 5)) tt
          (Sequential.clamp (of_Z 5) (of_Z 15) (of_Z 5)) tt.
Proof.
  pose proof (clamp_swapped_bounds tt (of_Z 10) (of_Z 15) (of_Z 5) eq_refl)
    as [Hminmax [Hsequential Hdiffer]].
  split; [|split].
  - apply Hminmax. reflexivity.
  - apply Hsequential. reflexivity.
  - exact Hdiffer.
Defined.

(** C10.  Neither body ever signals an error: for every triple of
    numbers, bounds in the wrong order, equal bounds, NaN and infinities
    included, and in every state, both calls return a number normally.
    The guard snippets, which do throw, are no part of either body. *)
Theorem clamp_never_throws {St} (s : St) (value min max : number) :
  (exists r, MinMax.clamp value min max s = (Value r, s)) /\
  (exists r, Sequential.clamp value min max s = (Value r, s)).
Proof.
  rewrite minmax_eval, sequential_eval. split; eexists; reflexivity.
Qed.

(** * Further properties of the code *)

(** ** [clamp]: NaN, infinite and equal bounds *)

Lemma js_lt_nan_l (x y : number) : isNaN x = true -> (x < y)%js = false.
Proof. destruct x; try discriminate. reflexivity. Qed.

Lemma js_lt_nan_r (x y : number) : isNaN y = true -> (x < y)%js = false.
Proof. destruct y; try discriminate. destruct x; reflexivity. Qed.

Lemma min2_nan_l (a b : number) : isNaN a = true -> Math.min [a; b] = NaN.
Proof. destruct a; try discriminate. reflexivity. Qed.

Lemma min2_nan_r (a b : number) : isNaN b = true -> Math.min [a; b] = NaN.
Proof. destruct b; try discriminate. destruct a; reflexivity. Qed.

Lemma max2_nan_l (a b : number) : isNaN a = true -> Math.max [a; b] = NaN.
Proof. destruct a; try discriminate. reflexivity. Qed.

Lemma minmax_nan_any (value min max : number) :
  isNaN value || isNaN min || isNaN max = true ->
  Math.min [Math.max [value; min]; max] = NaN.
Proof.
  intros H. apply orb_true_iff in H. destruct H as [H|H].
  - apply orb_true_iff in H. destruct H as [H|H].
    + now rewrite (max2_nan_l value min H).
    + now rewrite (max2_nan_r value min H).
  - now apply min2_nan_r.
Qed.

(** X1.  A NaN in any of the three positions makes the
    [Math.min]/[Math.max] body return NaN: this is the
    [clamp(NaN, 0, 10)] and [clamp(5, "a", 10)] of the post. *)
Theorem minmax_clamp_propagates_NaN {St} (s : St) (value min max : number) :
  isNaN value || isNaN min || isNaN max = true ->
  returns (MinMax.clamp value min max) s NaN.
Proof.
  intros H. unfold returns. rewrite minmax_eval.
  now rewrite (minmax_nan_any value min max H).
Qed.

Lemma minmax_clamp_propagates_NaN_witness :
  returns (MinMax.clamp (of_Z 5) NaN (of_Z 10)) tt NaN.
Proof.
  apply (minmax_clamp_propagates_NaN tt (of_Z 5) NaN (of_Z 10)). reflexivity.
Defined.

(** X2.  The sequential body does not propagate a NaN bound: a test
    against NaN is false, so the bound is skipped.  With a NaN [min] the
    result is the [value] clamped from above only, with a NaN [max] the
    [value] clamped from below only; a [value] that is not NaN never
    yields NaN unless the bound returned is itself NaN. *)
Theorem sequential_clamp_skips_NaN_bound {St} (s : St)
  (value min max : number) :
  (isNaN min = true ->
   returns (Sequential.clamp value min max) s
           (if (value > max)%js then max else value)) /\
  (isNaN max = true ->
   returns (Sequential.clamp value min max) s
           (if (value < min)%js then min else value)) /\
  (isNaN value = true -> returns (Sequential.clamp value min max) s value).
Proof.
  unfold returns. rewrite sequential_eval. split; [|split]; intros H.
  - now rewrite (js_lt_nan_r value min H).
  - rewrite js_gt_lt. now rewrite (js_lt_nan_l max value H).
  - rewrite js_gt_lt.
    now rewrite (js_lt_nan_l value min H), (js_lt_nan_r max value H).
Qed.

Lemma sequential_clamp_skips_NaN_bound_witness :
  returns (Sequential.clamp (of_Z 50) NaN (of_Z 10)) tt (of_Z 10) /\
  returns (Sequential.clamp (of_Z 5) (of_Z 10) NaN) tt (of_Z 10) /\
  returns (Sequential.clamp NaN (of_Z 0) (of_Z 10)) tt NaN.
Proof.
  split; [|split].
  - apply (sequential_clamp_skips_NaN_bound tt (of_Z 50) NaN (of_Z 10)).
    reflexivity.
  - apply (sequential_clamp_skips_NaN_bound tt (of_Z 5) (of_Z 10) NaN).
    reflexivity.
  - apply (sequential_clamp_skips_NaN_bound tt NaN (of_Z 0) (of_Z 10)).
    reflexivity.
Defined.

(** X3.  With a NaN bound and a [value] that is not NaN the two bodies
    return different results: NaN from [Math.min]/[Math.max], a number
    from the sequential checks whenever the other bound is a number. *)
Theorem bodies_differ_on_NaN_bound {St} (s : St) (value min max : number) :
  isNaN value = false ->
  (isNaN min = true /\ isNaN max = false) \/
  (isNaN min = false /\ isNaN max = true) ->
  returns (MinMax.clamp value min max) s NaN /\
  exists r, returns (Sequential.clamp value min max) s r /\ isNaN r = false.
Proof.
  intros Hv H. split.
  - unfold returns. rewrite minmax_eval, minmax_nan_any; [reflexivity|].
    rewrite Hv. destruct H as [[H _]|[_ H]]; rewrite H;
      [reflexivity|apply orb_true_r].
  - unfold returns. rewrite sequential_eval. eexists; split; [reflexivity|].
    destruct H as [[Hmin Hmax]|[Hmin Hmax]].
    + rewrite (js_lt_nan_r value min Hmin).
      now destruct (value > max)%js.
    + rewrite js_gt_lt, (js_lt_nan_l max value Hmax).
      now destruct (value < min)%js.
Qed.

Lemma bodies_differ_on_NaN_bound_witness :
  returns (MinMax.clamp (of_Z 5) NaN (of_Z 10)) tt NaN /\
  exists r, returns (Sequential.clamp (of_Z 5) NaN (of_Z 10)) tt r /\
            isNaN r = false.
Proof.
  apply (bodies_differ_on_NaN_bound tt (of_Z 5) NaN (of_Z 10)).
  - reflexivity.
  - left. split; reflexivity.
Defined.

(** X4.  With the bounds [-Infinity] and [Infinity] both bodies hand the
    [value] back untouched, whatever it is (NaN and the infinities
    included): the [clamp(50, -Infinity, Infinity)] of the post. *)
Theorem clamp_infinite_bounds_identity {St} (s : St) (value : number) :
  returns (MinMax.clamp value (neg Infinity) Infinity) s value /\
  returns (Sequential.clamp value (neg Infinity) Infinity) s value.
Proof.
  unfold returns. split.
  - destruct value as [[]|[]| |[] m e]; reflexivity.
  - rewrite sequential_eval.
    destruct value as [[]|[]| |[] m e]; reflexivity.
Qed.

(** X5.  When [min] and [max] are the same number, every [value] that is
    not NaN is clamped to that number, under both bodies: the
    [clamp(5, 10, 10)] of the post, for all values. *)
Theorem clamp_equal_bounds_constant {St} (s : St) (value min max : number) :
  isNaN value = false -> isNaN min = false -> (min == max)%js = true ->
  yields (MinMax.clamp value min max) s min /\
  yields (Sequential.clamp value min max) s min.
Proof.
  intros Nv Nmin Heq.
  assert (Hc : SFcompare min max = Some Eq).
  { apply same_number_char in Heq. destruct Heq as [[H _]|H]; congruence. }
  assert (Hle : (min <= max)%js = true) by (apply js_le_compare; auto).
  assert (Hseq : ((if (value < min)%js then min
                   else if (value > max)%js then max else value) == min)%js
                 = true).
  { destruct (value < min)%js eqn:Hlt; [apply same_number_refl|].
    destruct (value > max)%js eqn:Hgt; [now apply same_number_sym|].
    destruct (SFcompare_some value min Nv Nmin) as [c Hv].
    destruct c.
    - now apply same_number_of_compare.
    - apply js_lt_compare in Hv. congruence.
    - rewrite (SFcompare_eq_r min max value Hc) in Hv.
      apply js_gt_compare in Hv. congruence. }
  unfold yields. rewrite minmax_eval, sequential_eval.
  split; (eexists; split; [reflexivity|]); [|exact Hseq].
  eapply same_number_trans; [now apply minmax_matches_checks|exact Hseq].
Qed.

Lemma clamp_equal_bounds_constant_witness :
  yields (MinMax.clamp (of_Z 150) (of_Z 10) (of_Z 10)) tt (of_Z 10) /\
  yields (Sequential.clamp (of_Z 150) (of_Z 10) (of_Z 10)) tt (of_Z 10).
Proof.
  apply (clamp_equal_bounds_constant tt (of_Z 150) (of_Z 10) (of_Z 10));
    reflexivity.
Defined.

(** X6.  [clamp] never makes up a number: the sequential body returns one
    of its three arguments, bit for bit, and the [Math.min]/[Math.max]
    body returns one of its three arguments or NaN. *)
Theorem clamp_returns_an_argument {St} (s : St) (value min max : number) :
  (exists r, returns (Sequential.clamp value min max) s r /\
             (r = value \/ r = min \/ r = max)) /\
  (exists r, returns (MinMax.clamp value min max) s r /\
             (r = value \/ r = min \/ r = max \/ r = NaN)).
Proof.
  unfold returns. rewrite sequential_eval, minmax_eval.
  split; eexists; (split; [reflexivity|]).
  - now apply (sequential_result_origin value min max).
  - now apply (minmax_result_origin value min max).
Qed.

(** ** [clamp]: monotonicity *)

Lemma js_lt_le_trans (x y z : number) :
  (x < y)%js = true -> (y <= z)%js = true -> (x < z)%js = true.
Proof.
  rewrite !js_lt_compare, js_le_compare. intros Hxy [Hyz|Hyz].
  - exact (SFcompare_lt_trans _ _ _ Hxy Hyz).
  - now rewrite <- (SFcompare_eq_r y z x Hyz).
Qed.

Lemma js_le_lt_trans (x y z : number) :
  (x <= y)%js = true -> (y < z)%js = true -> (x < z)%js = true.
Proof.
  rewrite !js_lt_compare, js_le_compare. intros [Hxy|Hxy] Hyz.
  - exact (SFcompare_lt_trans _ _ _ Hxy Hyz).
  - now rewrite (SFcompare_eq_l x y z Hxy).
Qed.

Lemma js_lt_le (x y : number) : (x < y)%js = true -> (x <= y)%js = true.
Proof. rewrite js_lt_compare, js_le_compare. auto. Qed.

Lemma js_lt_not_le (x y : number) :
  (x < y)%js = true -> (y <= x)%js = false.
Proof.
  intros H. destruct (y <= x)%js eqn:E; [|reflexivity].
  pose proof (js_le_lt_trans y x y E H) as C.
  now rewrite js_lt_irrefl in C.
Qed.

Lemma sequential_monotone (v1 v2 lo hi : number) :
  (lo <= hi)%js = true -> (v1 <= v2)%js = true ->
  ((if (v1 < lo)%js then lo else if (v1 > hi)%js then hi else v1)
   <= (if (v2 < lo)%js then lo else if (v2 > hi)%js then hi else v2))%js
  = true.
Proof.
  intros Hb Hv.
  destruct (js_le_not_nan lo hi Hb) as [Nlo Nhi].
  destruct (js_le_not_nan v1 v2 Hv) as [N1 N2].
  rewrite !js_gt_lt.
  destruct (v1 < lo)%js eqn:L1.
  - (* the first result is [lo] *)
    destruct (v2 < lo)%js eqn:L2; [now apply js_le_refl|].
    destruct (hi < v2)%js eqn:G2; [assumption|].
    now apply js_not_lt_ge.
  - destruct (hi < v1)%js eqn:G1.
    + (* the first result is [hi], and [v2] is above [hi] too *)
      assert (G2 : (hi < v2)%js = true) by exact (js_lt_le_trans _ _ _ G1 Hv).
      assert (L2 : (v2 < lo)%js = false).
      { destruct (v2 < lo)%js eqn:E; [|reflexivity].
        pose proof (js_lt_le_trans _ _ _ E Hb) as C.
        pose proof (SFcompare_lt_trans hi v2 hi) as T.
        apply js_lt_compare in G2, C. specialize (T G2 C).
        rewrite (SFcompare_refl hi Nhi) in T. discriminate. }
      rewrite L2, G2. now apply js_le_refl.
    + (* the first result is [v1] *)
      assert (L2 : (v2 < lo)%js = false).
      { destruct (v2 < lo)%js eqn:E; [|reflexivity].
        pose proof (js_le_lt_trans _ _ _ Hv E). congruence. }
      rewrite L2. destruct (hi < v2)%js eqn:G2; [|assumption].
      now apply js_not_lt_ge.
Qed.

(** X7.  For [min <= max], [clamp] is monotone in [value]: a larger
    [value] never gives a smaller result, under both bodies. *)
Theorem clamp_monotone {St} (s : St) (value1 value2 min max : number) :
  (min <= max)%js = true -> (value1 <= value2)%js = true ->
  (exists r1 r2, returns (Sequential.clamp value1 min max) s r1 /\
                 returns (Sequential.clamp value2 min max) s r2 /\
                 (r1 <= r2)%js = true) /\
  (exists r1 r2, returns (MinMax.clamp value1 min max) s r1 /\
                 returns (MinMax.clamp value2 min max) s r2 /\
                 (r1 <= r2)%js = true).
Proof.
  intros Hb Hv. unfold returns. rewrite !sequential_eval, !minmax_eval.
  split; do 2 eexists; (split; [reflexivity|split; [reflexivity|]]).
  - now apply sequential_monotone.
  - rewrite (js_le_same _ _ _ _ (minmax_matches_checks value1 min max Hb)
               (minmax_matches_checks value2 min max Hb)).
    now apply sequential_monotone.
Qed.

Lemma clamp_monotone_witness :
  (exists r1 r2,
      returns (Sequential.clamp (neg (of_Z 5)) (of_Z 0) (of_Z 100)) tt r1 /\
      returns (Sequential.clamp (of_Z 50) (of_Z 0) (of_Z 100)) tt r2 /\
      (r1 <= r2)%js = true) /\
  (exists r1 r2,
      returns (MinMax.clamp (neg (of_Z 5)) (of_Z 0) (of_Z 100)) tt r1 /\
      returns (MinMax.clamp (of_Z 50) (of_Z 0) (of_Z 100)) tt r2 /\
      (r1 <= r2)%js = true).
Proof.
  apply (clamp_monotone tt (neg (of_Z 5)) (of_Z 50) (of_Z 0) (of_Z 100));
    reflexivity.
Defined.

(** ** [clamp] behind the guard snippets *)

Lemma minmax_body_call {St} (s : St) (value min max : number) :
  call (minmax_body value min max) s = MinMax.clamp value min max s.
Proof. reflexivity. Qed.

Lemma sequential_body_call {St} (s : St) (value min max : number) :
  call (sequential_body value min max) s = Sequential.clamp value min max s.
Proof. reflexivity. Qed.

Lemma guarded_eval {St} (body : number -> number -> number -> stmt St)
  (s : St) (value min max : number) :
  guarded body value min max s =
  if (min > max)%js
  then (Exception "Lower limit cannot be greater than upper limit", s)
  else if isNaN value || isNaN min || isNaN max
  then (Exception "All inputs must be numbers", s)
  else if negb (isFinite value) || negb (isFinite min) || negb (isFinite max)
  then (Exception "Inputs cannot be infinite", s)
  else call (body value min max) s.
Proof.
  unfold guarded, call, seq, guard_bounds, guard_nan, guard_infinite, if_.
  destruct (min > max)%js; [reflexivity|].
  destruct (isNaN value || isNaN min || isNaN max); [reflexivity|].
  destruct (negb (isFinite value) || negb (isFinite min)
            || negb (isFinite max)); reflexivity.
Qed.

(** X8.  With the three guard snippets in front, either body gives a
    function that, on every input, throws one of the three messages or
    returns a finite number of the interval from [min] to [max]; it
    throws exactly when [min > max], or an argument is NaN, or an
    argument is infinite, and never touches the state. *)
Theorem guarded_clamp_total {St} (s : St) (value min max : number) :
  (malformed value min max = true ->
   (exists msg, guarded minmax_body value min max s = (Exception msg, s)) /\
   (exists msg, guarded sequential_body value min max s = (Exception msg, s)))
  /\
  (malformed value min max = false ->
   (exists r, guarded minmax_body value min max s = (Value r, s) /\
              in_range r min max = true /\ isFinite r = true) /\
   (exists r, guarded sequential_body value min max s = (Value r, s) /\
              in_range r min max = true /\ isFinite r = true)).
Proof.
  unfold malformed.
  rewrite !guarded_eval, minmax_body_call, sequential_body_call.
  destruct (min > max)%js eqn:Hgt; cbn [orb].
  { split; [intros _; split; eexists; reflexivity|discriminate]. }
  destruct (isNaN value || isNaN min || isNaN max) eqn:Hnan; cbn [orb].
  { split; [intros _; split; eexists; reflexivity|discriminate]. }
  destruct (negb (isFinite value) || negb (isFinite min)
            || negb (isFinite max)) eqn:Hinf.
  { split; [intros _; split; eexists; reflexivity|discriminate]. }
  split; [discriminate|intros _].
  apply orb_false_iff in Hnan. destruct Hnan as [Hnan Nmax].
  apply orb_false_iff in Hnan. destruct Hnan as [Nv Nmin].
  apply orb_false_iff in Hinf. destruct Hinf as [Hinf Fmax].
  apply orb_false_iff in Hinf. destruct Hinf as [Fv Fmin].
  apply negb_false_iff in Fv, Fmin, Fmax.
  assert (Hle : (min <= max)%js = true) by now apply js_not_lt_ge.
  rewrite minmax_eval, sequential_eval.
  split; (eexists; split; [reflexivity|split]).
  - eapply in_range_same; [now apply minmax_matches_checks|].
    now apply in_range_cases.
  - destruct (minmax_result_origin value min max _ eq_refl)
      as [E|[E|[E|E]]]; rewrite E; auto.
    exfalso. pose proof (in_range_same _ _ min max
      (minmax_matches_checks value min max Hle)
      (in_range_cases value min max Nv Hle)) as R.
    rewrite E in R. unfold in_range, js_le, SFleb in R.
    destruct min; discriminate.
  - now apply in_range_cases.
  - destruct (sequential_result_origin value min max _ eq_refl)
      as [E|[E|E]]; rewrite E; auto.
Qed.

Lemma guarded_clamp_total_witness :
  ((exists msg, guarded minmax_body (of_Z 10) (of_Z 15) (of_Z 5) tt
                = (Exception msg, tt)) /\
   (exists msg, guarded sequential_body (of_Z 10) (of_Z 15) (of_Z 5) tt
                = (Exception msg, tt))) /\
  ((exists r, guarded minmax_body (of_Z 150) (of_Z 0) (of_Z 100) tt
              = (Value r, tt) /\
              in_range r (of_Z 0) (of_Z 100) = true /\ isFinite r = true) /\
   (exists r, guarded sequential_body (of_Z 150) (of_Z 0) (of_Z 100) tt
              = (Value r, tt) /\
              in_range r (of_Z 0) (of_Z 100) = true /\ isFinite r = true)).
Proof.
  split.
  - apply (guarded_clamp_total tt (of_Z 10) (of_Z 15) (of_Z 5)). reflexivity.
  - apply (guarded_clamp_total tt (of_Z 150) (of_Z 0) (of_Z 100)).
    reflexivity.
Defined.

(** ** Integer arithmetic on numbers

    Integers below [2 ^ 53] in absolute value are binary64 values, and
    adding or subtracting two of them is exact whenever the result stays
    below [2 ^ 53] too. *)

Lemma digits2_pos_shiftl (m : positive) (k : N) :
  Zpos (digits2_pos (Pos.shiftl m k)) = Zpos (digits2_pos m) + Z.of_N k.
Proof.
  destruct k as [|p]; cbn [Pos.shiftl Z.of_N]; [lia|].
  induction p using Pos.peano_ind.
  - cbn. lia.
  - rewrite Pos.iter_succ. cbn [digits2_pos]. lia.
Qed.

Lemma iter_pos_iter {A} (f : A -> A) (p : positive) (x : A) :
  iter_pos f p x = Pos.iter f x p.
Proof.
  revert x. induction p as [p IH|p IH|]; intros x; cbn.
  - rewrite !IH. now rewrite !Pos.iter_swap.
  - now rewrite !IH.
  - reflexivity.
Qed.

Lemma shr_shifted (m p : positive) :
  iter_pos shr_1 p
    {| shr_m := Zpos (Pos.iter xO m p); shr_r := false; shr_s := false |}
  = {| shr_m := Zpos m; shr_r := false; shr_s := false |}.
Proof.
  rewrite iter_pos_iter.
  induction p using Pos.peano_ind.
  - reflexivity.
  - rewrite Pos.iter_succ_r, Pos.iter_succ. cbn [shr_1 orb]. exact IHp.
Qed.

Lemma fexp_small (d : Z) : 0 < d -> fexp 53 1024 d = d - 53.
Proof. intros H. unfold fexp, emin. lia. Qed.

(* rounding a 53-digit mantissa does nothing *)
Lemma binary_round_aux_full (s : bool) (m : positive) (e : Z) :
  Zpos (digits2_pos m) = 53 -> -1074 <= e <= 971 ->
  binary_round_aux 53 1024 s (Zpos m) e loc_Exact = S754_finite s m e.
Proof.
  intros Hd He. unfold binary_round_aux, shr_fexp.
  cbn [Zdigits2 shr_record_of_loc]. rewrite Hd.
  assert (F : fexp 53 1024 (53 + e) - e = 0) by (unfold fexp, emin; lia).
  rewrite F. cbn [shr shr_m loc_of_shr_record round_nearest_even Zdigits2
    shr_record_of_loc]. rewrite Hd, F. cbn [shr shr_m].
  replace (e <=? 1024 - 53)%Z with true by (symmetry; apply Z.leb_le; lia).
  reflexivity.
Qed.

Lemma binary_round_aux_trailing (s : bool) (m q : positive) (e : Z) :
  Zpos (digits2_pos m) = 53 -> -1074 <= e + Zpos q <= 971 ->
  binary_round_aux 53 1024 s (Zpos (Pos.iter xO m q)) e loc_Exact
  = S754_finite s m (e + Zpos q).
Proof.
  intros Hd He. unfold binary_round_aux, shr_fexp.
  cbn [Zdigits2 shr_record_of_loc].
  change (Pos.iter xO m q) with (Pos.shiftl m (Npos q)).
  rewrite digits2_pos_shiftl, Hd. cbn [Z.of_N].
  assert (F : fexp 53 1024 (53 + Zpos q + e) - e = Zpos q)
    by (unfold fexp, emin; lia).
  rewrite F. cbn [shr Pos.shiftl]. rewrite shr_shifted.
  cbn [shr_m loc_of_shr_record round_nearest_even Zdigits2
    shr_record_of_loc]. rewrite Hd.
  assert (G : fexp 53 1024 (53 + (e + Zpos q)) - (e + Zpos q) = 0)
    by (unfold fexp, emin; lia).
  rewrite G. cbn [shr shr_m].
  replace (e + Zpos q <=? 1024 - 53)%Z with true
    by (symmetry; apply Z.leb_le; lia).
  reflexivity.
Qed.

Lemma shiftl_iter (m : positive) (k : N) (q : positive) :
  Pos.iter xO (Pos.shiftl m k) q = Pos.shiftl m (k + Npos q).
Proof.
  destruct k as [|p]; cbn [Pos.shiftl N.add]; [reflexivity|].
  now rewrite (Pos.add_comm p q), Pos.iter_add.
Qed.

Lemma binary_round_shifted (s : bool) (m : positive) (k : N) :
  Zpos (digits2_pos m) <= 53 ->
  binary_round 53 1024 s (Pos.shiftl m k) (- Z.of_N k) = canon s m.
Proof.
  intros Hd. set (d := Zpos (digits2_pos m)) in *.
  assert (Hd0 : 0 < d) by (unfold d; lia).
  unfold binary_round. rewrite digits2_pos_shiftl. fold d.
  replace (d + Z.of_N k + - Z.of_N k) with d by lia.
  rewrite (fexp_small d Hd0).
  unfold shl_align, canon. fold d.
  destruct (d - 53 - - Z.of_N k) as [|q|q] eqn:E.
  - (* already aligned *)
    assert (Hk : Z.to_N (53 - d) = k) by lia.
    rewrite binary_round_aux_full.
    + rewrite Hk. f_equal. lia.
    + rewrite digits2_pos_shiftl. fold d. lia.
    + lia.
  - (* trailing zeros to drop *)
    assert (Hk : k = (Z.to_N (53 - d) + Npos q)%N) by lia.
    rewrite Hk at 1. rewrite <- shiftl_iter.
    rewrite binary_round_aux_trailing.
    + f_equal. lia.
    + rewrite digits2_pos_shiftl. fold d. lia.
    + lia.
  - (* zeros to append *)
    rewrite shiftl_iter.
    assert (Hk : (k + Npos q)%N = Z.to_N (53 - d)) by lia.
    rewrite Hk. rewrite binary_round_aux_full.
    + reflexivity.
    + rewrite digits2_pos_shiftl. fold d. lia.
    + lia.
Qed.

Lemma Zpos_shiftl (m : positive) (k : N) :
  Zpos (Pos.shiftl m k) = Zpos m * 2 ^ Z.of_N k.
Proof.
  destruct k as [|p]; cbn [Pos.shiftl Z.of_N]; [lia|].
  induction p using Pos.peano_ind.
  - cbn. lia.
  - rewrite Pos.iter_succ, Pos2Z.inj_succ, Z.pow_succ_r by lia.
    rewrite Pos2Z.inj_xO, IHp. lia.
Qed.

Lemma digits2_pos_bound (m : positive) (n : Z) :
  0 <= n -> Zpos m < 2 ^ n -> Zpos (digits2_pos m) <= n.
Proof.
  revert n. induction m as [m IH|m IH|]; intros n Hn Hm; cbn [digits2_pos].
  - assert (0 < n) by (destruct (Z.eq_dec n 0); [subst; cbn in Hm; lia|lia]).
    replace n with (Z.succ (n - 1)) in Hm by lia.
    rewrite Z.pow_succ_r in Hm by lia.
    specialize (IH (n - 1)). lia.
  - assert (0 < n) by (destruct (Z.eq_dec n 0); [subst; cbn in Hm; lia|lia]).
    replace n with (Z.succ (n - 1)) in Hm by lia.
    rewrite Z.pow_succ_r in Hm by lia.
    specialize (IH (n - 1)). lia.
  - assert (0 < n) by (destruct (Z.eq_dec n 0); [subst; cbn in Hm; lia|lia]).
    lia.
Qed.

Lemma binary_round_plain (s : bool) (p : positive) :
  Zpos (digits2_pos p) <= 53 -> binary_round 53 1024 s p 0 = canon s p.
Proof. intros H. exact (binary_round_shifted s p 0%N H). Qed.

Lemma digits2_pos_safe (p : positive) :
  Zpos p < 2 ^ 53 -> Zpos (digits2_pos p) <= 53.
Proof. apply digits2_pos_bound. discriminate. Qed.

(** The shape of an integer literal. *)
Lemma of_Z_shape (z : Z) :
  Z.abs z < 2 ^ 53 ->
  of_Z z = match z with
           | Z0 => S754_zero false
           | Zpos p => canon false p
           | Zneg p => canon true p
           end.
Proof.
  intros Hz. destruct z as [|p|p]; [reflexivity| |]; unfold of_Z;
    cbn [binary_normalize]; apply binary_round_plain, digits2_pos_safe;
    exact Hz.
Qed.

Lemma binary_normalize_shifted (z : Z) (k : N) :
  Z.abs z < 2 ^ 53 ->
  binary_normalize 53 1024 (z * 2 ^ Z.of_N k) (- Z.of_N k) false = of_Z z.
Proof.
  intros Hz. rewrite (of_Z_shape z Hz). destruct z as [|p|p].
  - reflexivity.
  - rewrite <- Zpos_shiftl. cbn [binary_normalize].
    apply binary_round_shifted, digits2_pos_safe. exact Hz.
  - change (Zneg p) with (- Zpos p). rewrite Z.mul_opp_l, <- Zpos_shiftl.
    cbn [binary_normalize Z.opp].
    apply binary_round_shifted, digits2_pos_safe. exact Hz.
Qed.

Lemma shl_align_canon (m : positive) (ez : Z) :
  Zpos (digits2_pos m) <= 53 -> ez <= Zpos (digits2_pos m) - 53 ->
  Zpos (fst (shl_align (Pos.shiftl m (Z.to_N (53 - Zpos (digits2_pos m))))
                       (Zpos (digits2_pos m) - 53) ez))
  = Zpos m * 2 ^ Z.of_N (Z.to_N (- ez)).
Proof.
  intros Hd He. set (d := Zpos (digits2_pos m)) in *.
  unfold shl_align. destruct (ez - (d - 53)) as [|q|q] eqn:E; cbn [fst].
  - rewrite Zpos_shiftl. f_equal. f_equal. lia.
  - lia.
  - rewrite shiftl_iter, Zpos_shiftl. f_equal. f_equal. lia.
Qed.

(** Adding or subtracting two canonical numbers is exact as long as the
    integer result fits in 53 bits. *)
Lemma SFadd_canon (sa sb : bool) (p q : positive) :
  Zpos p < 2 ^ 53 -> Zpos q < 2 ^ 53 ->
  Z.abs (signed sa p + signed sb q) < 2 ^ 53 ->
  SFadd 53 1024 (canon sa p) (canon sb q) = of_Z (signed sa p + signed sb q).
Proof.
  intros Hp Hq Hs. apply digits2_pos_safe in Hp, Hq.
  unfold canon, SFadd.
  rewrite !shl_align_canon by lia.
  assert (E : Z.min (Zpos (digits2_pos p) - 53) (Zpos (digits2_pos q) - 53)
              = - Z.of_N (Z.to_N (- Z.min (Zpos (digits2_pos p) - 53)
                                          (Zpos (digits2_pos q) - 53)))) by lia.
  rewrite E at 3.
  set (k := Z.to_N _).
  replace (cond_Zopp sa (Zpos p * 2 ^ Z.of_N k) +
           cond_Zopp sb (Zpos q * 2 ^ Z.of_N k))
    with ((signed sa p + signed sb q) * 2 ^ Z.of_N k)
    by (unfold signed; destruct sa, sb; cbn [cond_Zopp]; ring).
  now apply binary_normalize_shifted.
Qed.

Lemma SFsub_canon (sa sb : bool) (p q : positive) :
  Zpos p < 2 ^ 53 -> Zpos q < 2 ^ 53 ->
  Z.abs (signed sa p - signed sb q) < 2 ^ 53 ->
  SFsub 53 1024 (canon sa p) (canon sb q) = of_Z (signed sa p - signed sb q).
Proof.
  intros Hp Hq Hs. apply digits2_pos_safe in Hp, Hq.
  unfold canon, SFsub.
  rewrite !shl_align_canon by lia.
  assert (E : Z.min (Zpos (digits2_pos p) - 53) (Zpos (digits2_pos q) - 53)
              = - Z.of_N (Z.to_N (- Z.min (Zpos (digits2_pos p) - 53)
                                          (Zpos (digits2_pos q) - 53)))) by lia.
  rewrite E at 3.
  set (k := Z.to_N _).
  replace (cond_Zopp sa (Zpos p * 2 ^ Z.of_N k) -
           cond_Zopp sb (Zpos q * 2 ^ Z.of_N k))
    with ((signed sa p - signed sb q) * 2 ^ Z.of_N k)
    by (unfold signed; destruct sa, sb; cbn [cond_Zopp]; ring).
  now apply binary_normalize_shifted.
Qed.

Lemma SFadd_of_Z (a b : Z) :
  Z.abs a < 2 ^ 53 -> Z.abs b < 2 ^ 53 -> Z.abs (a + b) < 2 ^ 53 ->
  js_add (of_Z a) (of_Z b) = of_Z (a + b).
Proof.
  intros Ha Hb Hab. unfold js_add.
  destruct a as [|p|p], b as [|q|q];
    rewrite ?Z.add_0_r, ?Z.add_0_l;
    try (rewrite (of_Z_shape _ Hb); reflexivity);
    try (rewrite (of_Z_shape _ Ha); reflexivity);
    rewrite (of_Z_shape _ Ha), (of_Z_shape _ Hb).
  - now apply (SFadd_canon false false).
  - now apply (SFadd_canon false true).
  - now apply (SFadd_canon true false).
  - now apply (SFadd_canon true true).
Qed.

Lemma SFsub_of_Z (a b : Z) :
  Z.abs a < 2 ^ 53 -> Z.abs b < 2 ^ 53 -> Z.abs (a - b) < 2 ^ 53 ->
  js_sub (of_Z a) (of_Z b) = of_Z (a - b).
Proof.
  intros Ha Hb Hab. unfold js_sub.
  destruct a as [|p|p], b as [|q|q];
    rewrite ?Z.sub_0_r;
    try (rewrite (of_Z_shape _ Ha); reflexivity);
    try (cbn [Z.sub Z.add Z.opp] in *;
         rewrite (of_Z_shape _ Hb), (of_Z_shape _ Hab); reflexivity);
    rewrite (of_Z_shape _ Ha), (of_Z_shape _ Hb).
  - now apply (SFsub_canon false false).
  - now apply (SFsub_canon false true).
  - now apply (SFsub_canon true false).
  - now apply (SFsub_canon true true).
Qed.

(** Among the integers only zero compares equal to zero. *)
Lemma of_Z_is_zero (z : Z) :
  Z.abs z < 2 ^ 53 -> strict_eq (of_Z z) (of_Z 0) = (z =? 0)%Z.
Proof.
  intros Hz. rewrite (of_Z_shape z Hz). destruct z; reflexivity.
Qed.

(** ** [descendStairs] *)

(** X9.  From a whole number of steps [n] below [2 ^ 53], and with more
    than [n] call frames available, [descendStairs] reaches the bottom:
    it logs one line per step, from [n] down to 1, then the closing
    line, after whatever the console already held, and returns
    [undefined]. *)
Theorem descendStairs_reaches_the_bottom (toString : number -> string)
  (stack : nat) (n : Z) (out : console) :
  0 <= n < 2 ^ 53 -> n < Z.of_nat stack ->
  descendStairs toString stack (of_Z n) out
  = (Undefined,
     (out ++ countdown toString n (Z.to_nat n)
          ++ ["You have reached the bottom!"])%list).
Proof.
  intros Hn Hs. rewrite <- (Z2Nat.id n) at 1 2 by lia.
  assert (Hk : Z.of_nat (Z.to_nat n) < 2 ^ 53) by lia.
  assert (Hks : (Z.to_nat n < stack)%nat) by lia.
  clear Hn Hs. revert stack out Hk Hks.
  induction (Z.to_nat n) as [|k IH]; intros stack out Hk Hks.
  - destruct stack as [|stack]; [lia|]. reflexivity.
  - destruct stack as [|stack]; [lia|]. cbn [descendStairs countdown].
    rewrite of_Z_is_zero by lia.
    replace (Z.of_nat (S k) =? 0)%Z with false
      by (symmetry; apply Z.eqb_neq; lia).
    rewrite (SFsub_of_Z (Z.of_nat (S k)) 1) by lia.
    replace (Z.of_nat (S k) - 1) with (Z.of_nat k) by lia.
    rewrite IH by lia. unfold console_log.
    now rewrite <- app_assoc.
Qed.

Lemma descendStairs_reaches_the_bottom_witness :
  descendStairs (fun _ => "n") 11 (of_Z 10) []
  = (Undefined,
     (countdown (fun _ => "n") 10 10
      ++ ["You have reached the bottom!"])%list).
Proof.
  apply (descendStairs_reaches_the_bottom (fun _ => "n") 11 10 []); lia.
Defined.

(** X10.  When no step on the way is zero, the recursion has no base case
    to reach and the call ends in the stack overflow, having logged one
    line per frame: this is so for a whole number of steps that is not
    smaller than the number of frames, and for every negative whole
    number. *)
Theorem descendStairs_overflows (toString : number -> string)
  (stack : nat) (n : Z) (out : console) :
  n < 0 \/ Z.of_nat stack <= n ->
  - 2 ^ 53 < n - Z.of_nat stack -> n < 2 ^ 53 ->
  descendStairs toString stack (of_Z n) out
  = (Exception stack_overflow, (out ++ countdown toString n stack)%list).
Proof.
  revert n out. induction stack as [|stack IH]; intros n out Hn Hlo Hhi.
  - cbn. now rewrite app_nil_r.
  - cbn [descendStairs countdown].
    rewrite of_Z_is_zero by lia.
    replace (n =? 0)%Z with false by (symmetry; apply Z.eqb_neq; lia).
    rewrite (SFsub_of_Z n 1) by lia.
    rewrite IH by lia. unfold console_log.
    now rewrite <- app_assoc.
Qed.

Lemma descendStairs_overflows_witness :
  descendStairs (fun _ => "n") 3 (of_Z (-1)) []
  = (Exception stack_overflow, countdown (fun _ => "n") (-1) 3).
Proof.
  apply (descendStairs_overflows (fun _ => "n") 3 (-1) []); lia.
Defined.

(** X11.  From NaN, [Infinity] or [-Infinity] the recursion never reaches
    the bottom either: [stepsLeft - 1] is [stepsLeft] again, every frame
    logs the same line, and the call ends in the stack overflow whatever
    the number of frames. *)
Theorem descendStairs_not_finite (toString : number -> string)
  (stack : nat) (stepsLeft : number) (out : console) :
  isFinite stepsLeft = false ->
  descendStairs toString stack stepsLeft out
  = (Exception stack_overflow,
     (out ++ repeat (stepping_line toString stepsLeft) stack)%list).
Proof.
  intros Hx. revert out. induction stack as [|stack IH]; intros out.
  - cbn. now rewrite app_nil_r.
  - cbn [descendStairs repeat].
    assert (Hz : strict_eq stepsLeft (of_Z 0) = false)
      by (destruct stepsLeft as [|[]| |]; try discriminate; reflexivity).
    assert (Hsub : js_sub stepsLeft (of_Z 1) = stepsLeft)
      by (destruct stepsLeft as [|[]| |]; try discriminate; reflexivity).
    rewrite Hz, Hsub, IH. unfold console_log.
    now rewrite <- app_assoc.
Qed.

Lemma descendStairs_not_finite_witness :
  descendStairs (fun _ => "n") 4 Infinity []
  = (Exception stack_overflow, repeat (stepping_line (fun _ => "n") Infinity) 4).
Proof.
  apply (descendStairs_not_finite (fun _ => "n") 4 Infinity []). reflexivity.
Defined.

(** ** The [Counter] class *)

Lemma add_one_at_the_edge :
  js_add (of_Z (2 ^ 53 - 1)) (of_Z 1) = of_Z (2 ^ 53) /\
  js_add (of_Z (2 ^ 53)) (of_Z 1) = of_Z (2 ^ 53) /\
  js_sub (of_Z (2 ^ 53)) (of_Z 1) = of_Z (2 ^ 53 - 1).
Proof. repeat split; vm_compute; reflexivity. Qed.

Lemma sub_one_at_the_edge :
  js_sub (of_Z (- (2 ^ 53 - 1))) (of_Z 1) = of_Z (- 2 ^ 53) /\
  js_sub (of_Z (- 2 ^ 53)) (of_Z 1) = of_Z (- 2 ^ 53) /\
  js_add (of_Z (- 2 ^ 53)) (of_Z 1) = of_Z (- (2 ^ 53 - 1)).
Proof. repeat split; vm_compute; reflexivity. Qed.

Lemma add_one_capped (z : Z) :
  - 2 ^ 53 < z <= 2 ^ 53 ->
  js_add (of_Z z) (of_Z 1) = of_Z (Z.min (z + 1) (2 ^ 53)).
Proof.
  intros Hz. destruct (Z.eq_dec z (2 ^ 53)) as [->|Hne].
  { apply add_one_at_the_edge. }
  destruct (Z.eq_dec z (2 ^ 53 - 1)) as [->|Hne'].
  { apply add_one_at_the_edge. }
  rewrite Z.min_l by lia. apply SFadd_of_Z; lia.
Qed.

Lemma sub_one_capped (z : Z) :
  - 2 ^ 53 <= z < 2 ^ 53 ->
  js_sub (of_Z z) (of_Z 1) = of_Z (Z.max (z - 1) (- 2 ^ 53)).
Proof.
  intros Hz. destruct (Z.eq_dec z (- 2 ^ 53)) as [->|Hne].
  { apply sub_one_at_the_edge. }
  destruct (Z.eq_dec z (- (2 ^ 53 - 1))) as [->|Hne'].
  { apply sub_one_at_the_edge. }
  rewrite Z.max_l by lia. apply SFsub_of_Z; lia.
Qed.

Lemma getValue_increment (c : Counter.t) :
  Counter.getValue (Counter.increment c)
  = js_add (Counter.getValue c) (of_Z 1).
Proof. reflexivity. Qed.

Lemma getValue_decrement (c : Counter.t) :
  Counter.getValue (Counter.decrement c)
  = js_sub (Counter.getValue c) (of_Z 1).
Proof. reflexivity. Qed.

(** X12.  A counter built on a whole number [n] counts exactly, up to a
    limit: after [k] calls of [increment] it holds [n + k], capped at
    [2 ^ 53], where [increment] stops having any effect; after [k] calls
    of [decrement] it holds [n - k], capped at [- 2 ^ 53]. *)
Theorem Counter_counts_up_to_the_limit (n : Z) (k : nat) :
  Z.abs n < 2 ^ 53 ->
  Counter.getValue
    (Nat.iter k Counter.increment (Counter.constructor (Some (of_Z n))))
  = of_Z (Z.min (n + Z.of_nat k) (2 ^ 53)) /\
  Counter.getValue
    (Nat.iter k Counter.decrement (Counter.constructor (Some (of_Z n))))
  = of_Z (Z.max (n - Z.of_nat k) (- 2 ^ 53)).
Proof.
  intros Hn. split.
  - induction k as [|k IH].
    + cbn. f_equal. lia.
    + rewrite Nat.iter_succ, getValue_increment, IH.
      rewrite add_one_capped by lia. f_equal. lia.
  - induction k as [|k IH].
    + cbn. f_equal. lia.
    + rewrite Nat.iter_succ, getValue_decrement, IH.
      rewrite sub_one_capped by lia. f_equal. lia.
Qed.

Lemma Counter_counts_up_to_the_limit_witness :
  Counter.getValue
    (Nat.iter 3 Counter.increment (Counter.constructor (Some (of_Z 4))))
  = of_Z (Z.min (4 + Z.of_nat 3) (2 ^ 53)) /\
  Counter.getValue
    (Nat.iter 3 Counter.decrement (Counter.constructor (Some (of_Z 4))))
  = of_Z (Z.max (4 - Z.of_nat 3) (- 2 ^ 53)).
Proof. apply (Counter_counts_up_to_the_limit 4 3). lia. Defined.

(** X13.  On a counter that holds a whole number below [2 ^ 53] in
    absolute value, [increment] and [decrement] undo each other, in
    either order. *)
Theorem Counter_increment_decrement_inverse (n : Z) :
  Z.abs n < 2 ^ 53 ->
  Counter.decrement (Counter.increment (Counter.constructor (Some (of_Z n))))
  = Counter.constructor (Some (of_Z n)) /\
  Counter.increment (Counter.decrement (Counter.constructor (Some (of_Z n))))
  = Counter.constructor (Some (of_Z n)).
Proof.
  intros Hn.
  unfold Counter.decrement, Counter.increment, Counter.constructor.
  cbn [Counter.value]. split; f_equal.
  - rewrite add_one_capped by lia.
    destruct (Z.eq_dec n (2 ^ 53 - 1)) as [->|Hne].
    + apply add_one_at_the_edge.
    + rewrite Z.min_l by lia. rewrite SFsub_of_Z by lia. f_equal. lia.
  - rewrite sub_one_capped by lia.
    destruct (Z.eq_dec n (- (2 ^ 53 - 1))) as [->|Hne].
    + apply sub_one_at_the_edge.
    + rewrite Z.max_l by lia. rewrite SFadd_of_Z by lia. f_equal. lia.
Qed.

Lemma Counter_increment_decrement_inverse_witness :
  Counter.decrement
    (Counter.increment (Counter.constructor (Some (of_Z 41))))
  = Counter.constructor (Some (of_Z 41)) /\
  Counter.increment
    (Counter.decrement (Counter.constructor (Some (of_Z 41))))
  = Counter.constructor (Some (of_Z 41)).
Proof. apply (Counter_increment_decrement_inverse 41). lia. Defined.

(** At [2 ^ 53] the two no longer undo each other: [increment] leaves the
    counter where it is and [decrement] then takes it one below. *)
Example Counter_stuck_at_the_limit :
  Counter.increment (Counter.constructor (Some (of_Z (2 ^ 53))))
  = Counter.constructor (Some (of_Z (2 ^ 53))) /\
  Counter.getValue
    (Counter.decrement
       (Counter.increment (Counter.constructor (Some (of_Z (2 ^ 53))))))
  = of_Z (2 ^ 53 - 1).
Proof. split; vm_compute; reflexivity. Qed.

(** ** [counter.js] with a module-level counter *)

(** X14.  After [reset], whatever the module went through before, [k]
    calls of [increment] (for [k] up to [2 ^ 53]) leave [getCounter] at
    [k]; the console gains the reset line and then one line per call,
    announcing 1, 2, ..., [k] in turn. *)
Theorem CounterModule_counts_after_reset (toString : number -> string)
  (s : CounterModule.state) (k : nat) :
  Z.of_nat k <= 2 ^ 53 ->
  CounterModule.getCounter
    (Nat.iter k (CounterModule.increment toString) (CounterModule.reset s))
  = of_Z (Z.of_nat k) /\
  CounterModule.out
    (Nat.iter k (CounterModule.increment toString) (CounterModule.reset s))
  = (CounterModule.out s ++ "Counter has been reset"
                         :: countup toString 0 k)%list.
Proof.
  intros Hk.
  assert (G : forall (j : nat) (n : Z) (t : CounterModule.state),
             CounterModule.counter t = of_Z n ->
             0 <= n -> n + Z.of_nat j <= 2 ^ 53 ->
             CounterModule.counter
               (Nat.iter j (CounterModule.increment toString) t)
             = of_Z (n + Z.of_nat j) /\
             CounterModule.out
               (Nat.iter j (CounterModule.increment toString) t)
             = (CounterModule.out t ++ countup toString n j)%list).
  { induction j as [|j IH]; intros n t Ht Hn Hj.
    - cbn. rewrite app_nil_r, Z.add_0_r. auto.
    - rewrite Nat.iter_succ_r.
      destruct (IH (n + 1) (CounterModule.increment toString t)) as [C O].
      + cbn [CounterModule.increment CounterModule.counter].
        rewrite Ht, add_one_capped by lia. f_equal. lia.
      + lia.
      + lia.
      + rewrite C, O. split; [f_equal; lia|].
        cbn [CounterModule.increment CounterModule.out countup].
        unfold console_log. rewrite Ht, <- app_assoc.
        rewrite add_one_capped by lia. rewrite Z.min_l by lia.
        reflexivity. }
  destruct (G k 0 (CounterModule.reset s) eq_refl) as [C O]; [lia|lia|].
  unfold CounterModule.getCounter. rewrite C, O. split; [reflexivity|].
  cbn [CounterModule.reset CounterModule.out]. unfold console_log.
  now rewrite <- app_assoc.
Qed.

Lemma CounterModule_counts_after_reset_witness :
  CounterModule.getCounter
    (Nat.iter 2 (CounterModule.increment (fun _ => "n"))
       (CounterModule.reset (CounterModule.loaded [])))
  = of_Z (Z.of_nat 2) /\
  CounterModule.out
    (Nat.iter 2 (CounterModule.increment (fun _ => "n"))
       (CounterModule.reset (CounterModule.loaded [])))
  = (CounterModule.out (CounterModule.loaded [])
       ++ "Counter has been reset" :: countup (fun _ => "n") 0 2)%list.
Proof.
  apply (CounterModule_counts_after_reset (fun _ => "n")
           (CounterModule.loaded []) 2).
  lia.
Defined.

(** ** Stores *)

Lemma store_length {A} (ref : nat) (obj : A) (objs : list A) :
  List.length (store ref obj objs) = List.length objs.
Proof.
  revert ref. induction objs as [|first rest IH]; intros [|ref]; cbn; auto.
Qed.

Lemma store_same {A} (ref : nat) (obj : A) (objs : list A) :
  (ref < List.length objs)%nat ->
  nth_error (store ref obj objs) ref = Some obj.
Proof.
  revert ref. induction objs as [|first rest IH]; intros [|ref] H; cbn in *;
    try lia; auto. apply IH. lia.
Qed.

Lemma store_other {A} (ref other : nat) (obj : A) (objs : list A) :
  other <> ref -> nth_error (store ref obj objs) other = nth_error objs other.
Proof.
  revert ref other.
  induction objs as [|first rest IH]; intros [|ref] [|other] H; cbn;
    try congruence; auto.
Qed.

Lemma nth_error_live {A} (objs : list A) (ref : nat) :
  (ref < List.length objs)%nat -> exists obj, nth_error objs ref = Some obj.
Proof.
  intros H. destruct (nth_error objs ref) as [obj|] eqn:E; [now exists obj|].
  apply nth_error_None in E. lia.
Qed.

(** ** [counter.js] with [createCounter] *)

(** X15.  [createCounter] makes a counter that starts at 0 and is new: it
    did not exist before, every other counter keeps its value, and
    nothing is logged. *)
Theorem createCounter_is_fresh (w : CounterFactory.world) (other : nat) :
  other <> fst (CounterFactory.createCounter w) ->
  CounterFactory.getCounter (fst (CounterFactory.createCounter w))
                            (snd (CounterFactory.createCounter w))
  = Some (of_Z 0) /\
  CounterFactory.getCounter (fst (CounterFactory.createCounter w)) w = None /\
  CounterFactory.getCounter other (snd (CounterFactory.createCounter w))
  = CounterFactory.getCounter other w /\
  CounterFactory.out (snd (CounterFactory.createCounter w))
  = CounterFactory.out w.
Proof.
  cbn. unfold CounterFactory.getCounter. cbn. intros H. repeat split.
  - rewrite nth_error_app2 by lia. now rewrite Nat.sub_diag.
  - apply nth_error_None. lia.
  - destruct (Nat.lt_ge_cases other (List.length (CounterFactory.counters w)))
      as [L|G].
    + now rewrite nth_error_app1.
    + assert (E : nth_error (CounterFactory.counters w) other = None)
        by (apply nth_error_None; lia).
      rewrite E. apply nth_error_None. rewrite length_app. cbn. lia.
Qed.

Lemma createCounter_is_fresh_witness :
  CounterFactory.getCounter 1
    (snd (CounterFactory.createCounter
            {| CounterFactory.counters := [of_Z 2];
               CounterFactory.out := [] |}))
  = Some (of_Z 0) /\
  CounterFactory.getCounter 0
    (snd (CounterFactory.createCounter
            {| CounterFactory.counters := [of_Z 2];
               CounterFactory.out := [] |}))
  = Some (of_Z 2).
Proof.
  pose proof (createCounter_is_fresh
                {| CounterFactory.counters := [of_Z 2];
                   CounterFactory.out := [] |} 0) as H.
  split; apply H; cbn; lia.
Defined.

(** X16.  The counters made by [createCounter] are isolated from one
    another: [increment], [decrement] and [reset] on one of them go
    through and leave the value of every other one as it was. *)
Theorem counters_are_isolated (toString : number -> string)
  (this other : nat) (w : CounterFactory.world) :
  (this < List.length (CounterFactory.counters w))%nat -> other <> this ->
  (exists w', CounterFactory.increment toString this w = Some w' /\
     CounterFactory.getCounter other w' = CounterFactory.getCounter other w)
  /\
  (exists w', CounterFactory.decrement toString this w = Some w' /\
     CounterFactory.getCounter other w' = CounterFactory.getCounter other w)
  /\
  (exists w', CounterFactory.reset this w = Some w' /\
     CounterFactory.getCounter other w' = CounterFactory.getCounter other w).
Proof.
  intros Hthis Hother.
  destruct (nth_error_live _ _ Hthis) as [c Hc].
  unfold CounterFactory.increment, CounterFactory.decrement,
    CounterFactory.reset, CounterFactory.getCounter. rewrite Hc.
  repeat split; eexists; (split; [reflexivity|]); cbn;
    now apply store_other.
Qed.

Lemma counters_are_isolated_witness :
  let w := snd (CounterFactory.createCounter
                  (snd (CounterFactory.createCounter
                          {| CounterFactory.counters := [];
                             CounterFactory.out := [] |}))) in
  (exists w', CounterFactory.increment (fun _ => "n") 1 w = Some w' /\
     CounterFactory.getCounter 0 w' = CounterFactory.getCounter 0 w) /\
  (exists w', CounterFactory.decrement (fun _ => "n") 1 w = Some w' /\
     CounterFactory.getCounter 0 w' = CounterFactory.getCounter 0 w) /\
  (exists w', CounterFactory.reset 1 w = Some w' /\
     CounterFactory.getCounter 0 w' = CounterFactory.getCounter 0 w).
Proof.
  cbn zeta. apply (counters_are_isolated (fun _ => "n") 1 0); cbn; lia.
Defined.

(** ** [userProfile.js] *)

(** X17.  The module variable always refers to a live object: this holds
    when the module is loaded and is kept by [setProfile], [getProfile]
    and [clearProfile], none of which can then fail. *)
Theorem userProfile_stays_live (objects : list UserProfile.profile)
  (w : UserProfile.world) (name email : string) :
  UserProfile.well_formed w ->
  UserProfile.well_formed (UserProfile.loaded objects) /\
  (exists w', UserProfile.setProfile name email w = Some w' /\
              UserProfile.well_formed w') /\
  (exists copy w', UserProfile.getProfile w = Some (copy, w') /\
                   UserProfile.well_formed w') /\
  UserProfile.well_formed (UserProfile.clearProfile w).
Proof.
  unfold UserProfile.well_formed. intros Hw.
  destruct (nth_error_live _ _ Hw) as [current Hc].
  unfold UserProfile.setProfile, UserProfile.getProfile. rewrite Hc.
  repeat split.
  - cbn. rewrite length_app. cbn. lia.
  - eexists; split; [reflexivity|]. cbn. now rewrite store_length.
  - do 2 eexists; split; [reflexivity|]. cbn. rewrite length_app. cbn. lia.
  - cbn. rewrite length_app. cbn. lia.
Qed.

Lemma userProfile_stays_live_witness :
  UserProfile.well_formed (UserProfile.loaded []) /\
  (exists w', UserProfile.setProfile "Ada" "ada@example.org"
                (UserProfile.loaded []) = Some w' /\
              UserProfile.well_formed w') /\
  (exists copy w', UserProfile.getProfile (UserProfile.loaded [])
                   = Some (copy, w') /\
                   UserProfile.well_formed w') /\
  UserProfile.well_formed (UserProfile.clearProfile (UserProfile.loaded [])).
Proof.
  apply (userProfile_stays_live [] (UserProfile.loaded [])
           "Ada" "ada@example.org").
  unfold UserProfile.well_formed. cbn. lia.
Defined.

(** X18.  What [setProfile] stores, [getProfile] gives back: after
    [setProfile(name, email)] the object returned by [getProfile] holds
    that name and that email, and it is a copy, not the object the module
    keeps.  After [clearProfile] it holds two empty strings. *)
Theorem setProfile_getProfile (w : UserProfile.world) (name email : string) :
  UserProfile.well_formed w ->
  (exists w1 copy w2,
      UserProfile.setProfile name email w = Some w1 /\
      UserProfile.getProfile w1 = Some (copy, w2) /\
      nth_error (UserProfile.objects w2) copy
      = Some {| UserProfile.name := name; UserProfile.email := email |} /\
      copy <> UserProfile.userProfile w2) /\
  (exists copy w2,
      UserProfile.getProfile (UserProfile.clearProfile w) = Some (copy, w2) /\
      nth_error (UserProfile.objects w2) copy
      = Some {| UserProfile.name := ""; UserProfile.email := "" |} /\
      copy <> UserProfile.userProfile w2).
Proof.
  unfold UserProfile.well_formed. intros Hw.
  destruct (nth_error_live _ _ Hw) as [current Hc]. split.
  - unfold UserProfile.setProfile. rewrite Hc.
    do 3 eexists. split; [reflexivity|]. split.
    + unfold UserProfile.getProfile.
      cbn [UserProfile.objects UserProfile.userProfile].
      rewrite (store_same _ _ _ Hw). reflexivity.
    + cbn [UserProfile.objects UserProfile.userProfile].
      rewrite store_length. split; [|lia].
      rewrite nth_error_app2 by (rewrite store_length; lia).
      now rewrite store_length, Nat.sub_diag.
  - do 2 eexists. split.
    + unfold UserProfile.getProfile, UserProfile.clearProfile.
      cbn [UserProfile.objects UserProfile.userProfile].
      rewrite nth_error_app2 by lia. rewrite Nat.sub_diag. reflexivity.
    + cbn [UserProfile.objects UserProfile.userProfile
           UserProfile.clearProfile].
      split; [|rewrite length_app; cbn; lia].
      rewrite nth_error_app2 by lia. now rewrite Nat.sub_diag.
Qed.

Lemma setProfile_getProfile_witness :
  (exists w1 copy w2,
      UserProfile.setProfile "Ada" "ada@example.org" (UserProfile.loaded [])
      = Some w1 /\
      UserProfile.getProfile w1 = Some (copy, w2) /\
      nth_error (UserProfile.objects w2) copy
      = Some {| UserProfile.name := "Ada";
                UserProfile.email := "ada@example.org" |} /\
      copy <> UserProfile.userProfile w2) /\
  (exists copy w2,
      UserProfile.getProfile (UserProfile.clearProfile (UserProfile.loaded []))
      = Some (copy, w2) /\
      nth_error (UserProfile.objects w2) copy
      = Some {| UserProfile.name := ""; UserProfile.email := "" |} /\
      copy <> UserProfile.userProfile w2).
Proof.
  apply (setProfile_getProfile (UserProfile.loaded [])
           "Ada" "ada@example.org").
  unfold UserProfile.well_formed. cbn. lia.
Defined.

(** X19.  The object [getProfile] returns is a snapshot: a later
    [setProfile] or [clearProfile] does not change it, and writing to it
    does not change the profile the module keeps. *)
Theorem getProfile_is_a_snapshot (w w1 : UserProfile.world) (copy : nat)
  (name email : string) (written : UserProfile.profile) :
  UserProfile.well_formed w ->
  UserProfile.getProfile w = Some (copy, w1) ->
  (exists w2, UserProfile.setProfile name email w1 = Some w2 /\
     nth_error (UserProfile.objects w2) copy
     = nth_error (UserProfile.objects w) (UserProfile.userProfile w)) /\
  nth_error (UserProfile.objects (UserProfile.clearProfile w1)) copy
  = nth_error (UserProfile.objects w) (UserProfile.userProfile w) /\
  nth_error (store copy written (UserProfile.objects w1))
            (UserProfile.userProfile w1)
  = nth_error (UserProfile.objects w) (UserProfile.userProfile w).
Proof.
  unfold UserProfile.well_formed. intros Hw Hget.
  destruct (nth_error_live _ _ Hw) as [current Hc].
  unfold UserProfile.getProfile in Hget. rewrite Hc in Hget.
  inversion Hget; subst copy w1; clear Hget. cbn.
  assert (Hcopy : nth_error (UserProfile.objects w ++ [current])%list
                            (List.length (UserProfile.objects w))
                  = Some current)
    by (rewrite nth_error_app2 by lia; now rewrite Nat.sub_diag).
  assert (Hmod : nth_error (UserProfile.objects w ++ [current])%list
                           (UserProfile.userProfile w) = Some current)
    by (now rewrite nth_error_app1).
  rewrite Hc. repeat split.
  - unfold UserProfile.setProfile. cbn. rewrite Hmod.
    eexists; split; [reflexivity|]. cbn.
    rewrite store_other by lia. exact Hcopy.
  - rewrite nth_error_app1 by (rewrite length_app; cbn; lia). exact Hcopy.
  - rewrite store_other by lia. exact Hmod.
Qed.

Lemma getProfile_is_a_snapshot_witness :
  UserProfile.getProfile (UserProfile.loaded [])
  = Some (1%nat, {| UserProfile.objects :=
                      [{| UserProfile.name := ""; UserProfile.email := "" |};
                       {| UserProfile.name := ""; UserProfile.email := "" |}];
                    UserProfile.userProfile := 0 |}) /\
  exists w2,
    UserProfile.setProfile "Ada" "ada@example.org"
      {| UserProfile.objects :=
           [{| UserProfile.name := ""; UserProfile.email := "" |};
            {| UserProfile.name := ""; UserProfile.email := "" |}];
         UserProfile.userProfile := 0 |}
    = Some w2 /\
    nth_error (UserProfile.objects w2) 1
    = Some {| UserProfile.name := ""; UserProfile.email := "" |}.
Proof.
  split; [reflexivity|].
  apply (getProfile_is_a_snapshot (UserProfile.loaded [])
           {| UserProfile.objects :=
                [{| UserProfile.name := ""; UserProfile.email := "" |};
                 {| UserProfile.name := ""; UserProfile.email := "" |}];
              UserProfile.userProfile := 0 |}
           1 "Ada" "ada@example.org"
           {| UserProfile.name := "x"; UserProfile.email := "y" |}).
  - unfold UserProfile.well_formed. cbn. lia.
  - reflexivity.
Defined.

(** ** [miscUtils.js] *)

Lemma binary_normalize_shifted_signed (z : Z) (k : N) (szero : bool) :
  Z.abs z < 2 ^ 53 ->
  binary_normalize 53 1024 (z * 2 ^ Z.of_N k) (- Z.of_N k) szero
  = match z with Z0 => S754_zero szero | _ => of_Z z end.
Proof.
  intros Hz. destruct z as [|p|p].
  - reflexivity.
  - rewrite (of_Z_shape _ Hz), <- Zpos_shiftl. cbn [binary_normalize].
    apply binary_round_shifted, digits2_pos_safe. exact Hz.
  - rewrite (of_Z_shape _ Hz).
    change (Zneg p) with (- Zpos p). rewrite Z.mul_opp_l, <- Zpos_shiftl.
    cbn [binary_normalize Z.opp].
    apply binary_round_shifted, digits2_pos_safe. exact Hz.
Qed.

Lemma of_Z_2 : of_Z 2 = canon false 2.
Proof. reflexivity. Qed.

(** The remainder of a non-zero integer by 2. *)
Lemma js_rem_canon_2 (s : bool) (p : positive) :
  Zpos p < 2 ^ 53 ->
  js_rem (canon s p) (canon false 2)
  = match Zpos p mod 2 with
    | Z0 => S754_zero s
    | r => of_Z (cond_Zopp s r)
    end.
Proof.
  intros Hp. apply digits2_pos_safe in Hp.
  unfold canon, js_rem.
  change (Zpos (digits2_pos 2)) with 2.
  remember (Z.min (Zpos (digits2_pos p) - 53) (2 - 53)) as e eqn:He.
  rewrite (shl_align_canon p e Hp) by lia.
  change 2 with (Zpos (digits2_pos 2)) at 2 3.
  rewrite (shl_align_canon 2 e) by (cbn; lia).
  assert (Hpow : 0 < 2 ^ Z.of_N (Z.to_N (- e)))
    by (apply Z.pow_pos_nonneg; lia).
  rewrite Z.mul_mod_distr_r by lia.
  pose proof (Z.mod_pos_bound (Zpos p) 2 eq_refl) as B.
  replace (cond_Zopp s (Zpos p mod 2 * 2 ^ Z.of_N (Z.to_N (- e))))
    with (cond_Zopp s (Zpos p mod 2) * 2 ^ Z.of_N (Z.to_N (- e)))
    by (destruct s; cbn [cond_Zopp]; ring).
  replace e with (- Z.of_N (Z.to_N (- e))) at 2 by lia.
  rewrite binary_normalize_shifted_signed
    by (destruct s; cbn [cond_Zopp]; lia).
  destruct (Zpos p mod 2) as [|r|r]; [destruct s; reflexivity| |lia].
  destruct s; reflexivity.
Qed.

(** X20.  [isEven] tells the parity of every whole number below [2 ^ 53]
    in absolute value, the negative ones included, and answers [false]
    for NaN and the two infinities. *)
Theorem isEven_is_parity (n : Z) (x : number) :
  Z.abs n < 2 ^ 53 -> isFinite x = false ->
  isEven (of_Z n) = Z.even n /\ isEven x = false.
Proof.
  intros Hn Hx. split.
  2:{ destruct x as [|[]| |]; try discriminate; reflexivity. }
  unfold isEven. rewrite (of_Z_shape n Hn), of_Z_2.
  destruct n as [|p|p]; [reflexivity| |].
  - rewrite (js_rem_canon_2 false p Hn), Zeven_mod.
    pose proof (Z.mod_pos_bound (Zpos p) 2 eq_refl) as B.
    destruct (Zpos p mod 2) as [|r|r]; [reflexivity| |lia].
    assert (r = 1%positive) by lia. subst r. reflexivity.
  - rewrite (js_rem_canon_2 true p Hn).
    change (Z.even (Zneg p)) with (Z.even (Zpos p)). rewrite Zeven_mod.
    pose proof (Z.mod_pos_bound (Zpos p) 2 eq_refl) as B.
    destruct (Zpos p mod 2) as [|r|r]; [reflexivity| |lia].
    assert (r = 1%positive) by lia. subst r. reflexivity.
Qed.

Lemma isEven_is_parity_witness :
  isEven (of_Z (-7)) = Z.even (-7) /\ isEven NaN = false.
Proof. apply (isEven_is_parity (-7) NaN); [lia|reflexivity]. Defined.

Lemma digits2_pos_lower (m : positive) :
  2 ^ (Zpos (digits2_pos m) - 1) <= Zpos m.
Proof.
  induction m as [m IH|m IH|]; cbn [digits2_pos].
  - rewrite Pos2Z.inj_succ.
    replace (Z.succ (Zpos (digits2_pos m)) - 1)
      with (Z.succ (Zpos (digits2_pos m) - 1)) by lia.
    rewrite Z.pow_succ_r by lia. lia.
  - rewrite Pos2Z.inj_succ.
    replace (Z.succ (Zpos (digits2_pos m)) - 1)
      with (Z.succ (Zpos (digits2_pos m) - 1)) by lia.
    rewrite Z.pow_succ_r by lia. lia.
  - cbn. lia.
Qed.

Lemma digits2_pos_above (m : positive) (n : Z) :
  0 <= n -> 2 ^ n <= Zpos m -> n < Zpos (digits2_pos m).
Proof.
  intros Hn Hm.
  destruct (Z.lt_ge_cases n (Zpos (digits2_pos m))) as [L|G]; [exact L|].
  exfalso.
  assert (U : Zpos m < 2 ^ Zpos (digits2_pos m)).
  { clear. induction m as [m IH|m IH|]; cbn [digits2_pos].
    - rewrite Pos2Z.inj_succ, Z.pow_succ_r by lia. lia.
    - rewrite Pos2Z.inj_succ, Z.pow_succ_r by lia. lia.
    - cbn. lia. }
  pose proof (Z.pow_le_mono_r 2 (Zpos (digits2_pos m)) n) as M. lia.
Qed.

Lemma binary_round_aux_shifted (s : bool) (m : positive) (k : N) :
  Zpos (digits2_pos m) <= 53 -> 53 <= Zpos (digits2_pos m) + Z.of_N k ->
  binary_round_aux 53 1024 s (Zpos (Pos.shiftl m k)) (- Z.of_N k) loc_Exact
  = canon s m.
Proof.
  intros Hd Hk. rewrite <- (binary_round_shifted s m k Hd).
  unfold binary_round. rewrite digits2_pos_shiftl.
  replace (Zpos (digits2_pos m) + Z.of_N k + - Z.of_N k)
    with (Zpos (digits2_pos m)) by lia.
  rewrite fexp_small by lia. unfold shl_align.
  destruct (Zpos (digits2_pos m) - 53 - - Z.of_N k) eqn:E;
    [reflexivity|reflexivity|lia].
Qed.

Lemma js_mul_canon (sa sb : bool) (p q : positive) :
  Zpos p * Zpos q < 2 ^ 53 ->
  js_mul (canon sa p) (canon sb q) = canon (xorb sa sb) (p * q).
Proof.
  intros Hpq.
  assert (Hp : Zpos p < 2 ^ 53) by nia.
  assert (Hq : Zpos q < 2 ^ 53) by nia.
  apply digits2_pos_safe in Hp, Hq.
  assert (Hd : Zpos (digits2_pos (p * q)) <= 53)
    by (apply digits2_pos_safe; rewrite Pos2Z.inj_mul; exact Hpq).
  assert (Hlow : Zpos (digits2_pos p) + Zpos (digits2_pos q) - 2
                 < Zpos (digits2_pos (p * q))).
  { apply digits2_pos_above; [lia|]. rewrite Pos2Z.inj_mul.
    replace (Zpos (digits2_pos p) + Zpos (digits2_pos q) - 2)
      with ((Zpos (digits2_pos p) - 1) + (Zpos (digits2_pos q) - 1)) by lia.
    rewrite Z.pow_add_r by lia.
    pose proof (digits2_pos_lower p). pose proof (digits2_pos_lower q).
    assert (0 < 2 ^ (Zpos (digits2_pos p) - 1))
      by (apply Z.pow_pos_nonneg; lia).
    assert (0 < 2 ^ (Zpos (digits2_pos q) - 1))
      by (apply Z.pow_pos_nonneg; lia).
    nia. }
  unfold js_mul, canon at 1 2. cbn [SFmul].
  set (a := Z.to_N (53 - Zpos (digits2_pos p))).
  set (b := Z.to_N (53 - Zpos (digits2_pos q))).
  assert (Hm : (Pos.shiftl p a * Pos.shiftl q b)%positive
               = Pos.shiftl (p * q) (a + b)).
  { apply Pos2Z.inj. rewrite Pos2Z.inj_mul, !Zpos_shiftl, Pos2Z.inj_mul.
    rewrite N2Z.inj_add, Z.pow_add_r by lia. ring. }
  rewrite Hm.
  replace (Zpos (digits2_pos p) - 53 + (Zpos (digits2_pos q) - 53))
    with (- Z.of_N (a + b)) by (subst a b; lia).
  apply binary_round_aux_shifted; [exact Hd|subst a b; lia].
Qed.

Lemma js_mul_comm (x y : number) : js_mul x y = js_mul y x.
Proof.
  unfold js_mul.
  destruct x as [sx|sx| |sx mx ex], y as [sy|sy| |sy my ey]; cbn [SFmul];
    rewrite ?(xorb_comm sx sy); try reflexivity.
  now rewrite (Pos.mul_comm mx my), (Z.add_comm ex ey).
Qed.

(** X21.  [calculateRectangleArea] does not depend on the order of its
    arguments, whatever they are, and for whole-number sides that are,
    like their product, below [2 ^ 53], it is the exact product. *)
Theorem calculateRectangleArea_exact (width height : number) (w h : Z) :
  0 <= w < 2 ^ 53 -> 0 <= h < 2 ^ 53 -> w * h < 2 ^ 53 ->
  calculateRectangleArea width height = calculateRectangleArea height width /\
  calculateRectangleArea (of_Z w) (of_Z h) = of_Z (w * h).
Proof.
  intros Hw Hh Hwh. split; [apply js_mul_comm|].
  unfold calculateRectangleArea.
  destruct w as [|p|p], h as [|q|q]; try lia.
  - reflexivity.
  - rewrite (of_Z_shape (Zpos q)) by lia. reflexivity.
  - rewrite Z.mul_0_r. rewrite (of_Z_shape (Zpos p)) by lia. reflexivity.
  - rewrite (of_Z_shape (Zpos p)), (of_Z_shape (Zpos q)) by lia.
    rewrite js_mul_canon by exact Hwh.
    rewrite (of_Z_shape (Zpos p * Zpos q)) by (cbn [Z.mul Z.abs]; lia).
    reflexivity.
Qed.

Lemma calculateRectangleArea_exact_witness :
  calculateRectangleArea NaN (of_Z 3) = calculateRectangleArea (of_Z 3) NaN /\
  calculateRectangleArea (of_Z 6) (of_Z 7) = of_Z (6 * 7).
Proof. apply (calculateRectangleArea_exact NaN (of_Z 3) 6 7); lia. Defined.
